(** * Process state synchronisation and control dispatch: [useProcesses]

    A shallow embedding of [ui/src/hooks/useProcesses.ts] and of the parts
    of its environment the hook's behaviour depends on:

    - the data exchanged with the backend ([ProcessInfo], [ProjectProcesses],
      the push message), whose declarations live in [../lib/types];
    - JavaScript run-time values, because TypeScript types are erased and a
      push message is whatever the socket delivered;
    - the query and mutation observers of @tanstack/react-query v5, as far
      as the hook reads them ([data], [isLoading], [isPending]) or drives
      them ([mutateAsync], [invalidateQueries], [onSuccess]).

    React re-renders the hook after every state change, so every value the
    hook returns is modelled as a function of the current [HookState]. *)

From Stdlib Require Import ZArith Lia.
From stdpp Require Import base option list gmap strings pretty.

Local Open Scope Z_scope.

(** ** Data model ([../lib/types]) *)

(** Modelled from the spec: the status enumeration of a ProcessNode
    (section 3, [status]); the panel compares it with the same three
    literals. *)
Inductive ProcessStatus := running | paused | stopped.

(** Modelled from the spec: [ProcessInfo] of [../lib/types], with the
    fields the panel reads ([pid], [name], [status], [started_at],
    [children]). *)
#[warnings="-register-all"]
Inductive ProcessInfo := mkProcessInfo {
  pid : Z;
  name : string;
  status : ProcessStatus;
  started_at : string;
  children : list ProcessInfo
}.

Module ProjectProcesses.
(** Modelled from the spec: [ProjectProcesses] of [../lib/types].
    [total_count] is a whole number, held as every JavaScript number is in
    a double. *)
Record t := mk {
  project_name : string;
  processes : list ProcessInfo;
  total_count : Z
}.
End ProjectProcesses.

(** A snapshot is a sequence of project groups. *)
Abbreviation Snapshot := (list ProjectProcesses.t).

(** ** Run-time values *)

(** The values a slot typed [ProjectProcesses[] | null] (or [| undefined])
    can hold once types are erased: the two nullish values, an array of
    project groups, or a value that is no array at all. *)
Inductive JsValue :=
  | undefined
  | null
  | JsArray (s : Snapshot)
  | JsNumber (n : Z)
  | JsString (s : string).

(** [a ?? b]: the right operand only when the left one is nullish. *)
Definition nullish_coalesce (a b : JsValue) : JsValue :=
  match a with
  | undefined | null => b
  | _ => a
  end.

Infix "??" := nullish_coalesce (at level 45, left associativity).

(** The outcome of evaluating an expression: a value, or a thrown error. *)
Inductive Completion (A : Type) :=
  | Normal (a : A)
  | Throw (e : string).
Arguments Normal {A} & a.
Arguments Throw {A} e.

(** [v.reduce(f, init)]: left fold over an array; a number or a string has
    no [reduce] property, and reading a property of a nullish value throws
    as well. *)
Definition reduce {B : Type} (v : JsValue) (f : B -> ProjectProcesses.t -> B)
    (init : B) : Completion B :=
  match v with
  | JsArray s => Normal (fold_left f s init)
  | JsNumber _ | JsString _ => Throw "TypeError: processes.reduce is not a function"
  | undefined | null => Throw "TypeError: cannot read properties of null"
  end.

(** The numbers a sum of whole-number doubles can be: a whole number, or
    an infinity once the sum has left the range of doubles. *)
Inductive JsDouble :=
  | Finite (z : Z)
  | Infinity (negative : bool).

Coercion Finite : Z >-> JsDouble.

(** The double nearest to a whole number: 53 significant bits, ties to the
    even significand, and an infinity from 2^1024 on. *)
Definition round_double (n : Z) : JsDouble :=
  let a := Z.abs n in
  let shift := Z.max 0 (Z.log2 a + 1 - 53) in
  let q := Z.shiftr a shift in
  let r := a - Z.shiftl q shift in
  let half := Z.shiftl 1 (shift - 1) in
  let q' :=
    if shift =? 0 then q
    else if (half <? r) || ((half =? r) && Z.odd q) then q + 1
    else q in
  let m := Z.shiftl q' shift in
  if 2 ^ 1024 <=? m then Infinity (n <? 0) else Finite (Z.sgn n * m).

(** [sum + x] for a whole-number double [x]: the exact sum, rounded; an
    infinity absorbs every finite number. *)
Definition js_add (sum : JsDouble) (x : Z) : JsDouble :=
  match sum with
  | Finite s => round_double (s + x)
  | Infinity negative => Infinity negative
  end.

(** [n > 0] *)
Definition js_gt0 (n : JsDouble) : bool :=
  match n with
  | Finite z => 0 <? z
  | Infinity negative => negb negative
  end.

Module WSProcessUpdateMessage.
(** The push message. Its declared shape is [{ processes: Snapshot }];
    at run time the field holds what the socket delivered. *)
Record t := mk { processes : JsValue }.
End WSProcessUpdateMessage.

(** ** The query observer ([useQuery]) *)

Definition Error := string.

Module Query.
(** What the hook reads from [useQuery], and a log of the refetches that
    [invalidateQueries({ queryKey: ['processes'] })] has forced.
    [data] starts [undefined] and keeps the last fetched snapshot;
    [isLoading] holds during the first fetch only. *)
Record t := mk {
  data : JsValue;
  isLoading : bool;
  error : option Error;
  invalidations : nat
}.

Definition initial : t :=
  {| data := undefined; isLoading := true; error := None; invalidations := 0 |}.

(** [queryFn] resolved with a snapshot. *)
Definition fulfilled (s : Snapshot) (q : t) : t :=
  {| data := JsArray s; isLoading := false; error := None;
     invalidations := invalidations q |}.

(** [queryFn] rejected: the last data stays. *)
Definition rejected (e : Error) (q : t) : t :=
  {| data := data q; isLoading := false; error := Some e;
     invalidations := invalidations q |}.

Definition invalidate (q : t) : t :=
  {| data := data q; isLoading := isLoading q; error := error q;
     invalidations := S (invalidations q) |}.
End Query.

(** ** The mutation observers ([useMutation]) *)

Inductive MutationStatus := MIdle | MPending | MSuccess | MError.

Module Mutation.
(** A mutation observer follows the mutation its latest [mutate] call
    created: [mutate] detaches it from the previous one. *)
Record t := mk {
  currentMutation : option nat;
  status : MutationStatus
}.

Definition initial : t := {| currentMutation := None; status := MIdle |}.

Definition isPending (m : t) : bool :=
  match status m with MPending => true | _ => false end.

(** [mutate] builds mutation [id], attaches the observer, and the
    mutation dispatches [pending]. *)
Definition mutate (id : nat) (m : t) : t :=
  {| currentMutation := Some id; status := MPending |}.

(** Mutation [id] dispatched [st]: only an attached observer sees it. *)
Definition notify (id : nat) (st : MutationStatus) (m : t) : t :=
  match currentMutation m with
  | Some cur => if Nat.eqb cur id then {| currentMutation := Some cur; status := st |} else m
  | None => m
  end.
End Mutation.

(** ** The hook *)

(** The four commands, each with the variables its [mutationFn] receives;
    [force] is an optional argument. *)
Inductive Command :=
  | KillProcess (pid : Z) (force : option bool)
  | KillAllProcesses (force : option bool)
  | PauseProcess (pid : Z)
  | ResumeProcess (pid : Z).

(** How a promise settles: the transport call's, and with it the one the
    action wrapper returns to its caller. *)
Inductive Outcome :=
  | Fulfilled
  | Rejected (e : Error).

(** The state behind one mounted [useProcesses]: the [useState] cell, the
    query, the four mutation observers, and the mutations whose transport
    call has not settled yet, by mutation id. *)
Record HookState := mkHookState {
  wsProcesses : JsValue;
  query : Query.t;
  killMutation : Mutation.t;
  killAllMutation : Mutation.t;
  pauseMutation : Mutation.t;
  resumeMutation : Mutation.t;
  pendingMutations : gmap nat Command;
  nextMutationId : nat
}.

Definition initialState : HookState :=
  {| wsProcesses := null;
     query := Query.initial;
     killMutation := Mutation.initial;
     killAllMutation := Mutation.initial;
     pauseMutation := Mutation.initial;
     resumeMutation := Mutation.initial;
     pendingMutations := ∅;
     nextMutationId := 0 |}.

Definition setWsProcesses (v : JsValue) (st : HookState) : HookState :=
  {| wsProcesses := v;
     query := query st;
     killMutation := killMutation st;
     killAllMutation := killAllMutation st;
     pauseMutation := pauseMutation st;
     resumeMutation := resumeMutation st;
     pendingMutations := pendingMutations st;
     nextMutationId := nextMutationId st |}.

Definition setQuery (q : Query.t) (st : HookState) : HookState :=
  {| wsProcesses := wsProcesses st;
     query := q;
     killMutation := killMutation st;
     killAllMutation := killAllMutation st;
     pauseMutation := pauseMutation st;
     resumeMutation := resumeMutation st;
     pendingMutations := pendingMutations st;
     nextMutationId := nextMutationId st |}.

(** Apply [f] to the observer command [c] goes through. *)
Definition updateObserver (c : Command) (f : Mutation.t -> Mutation.t)
    (st : HookState) : HookState :=
  {| wsProcesses := wsProcesses st;
     query := query st;
     killMutation :=
       match c with KillProcess _ _ => f (killMutation st) | _ => killMutation st end;
     killAllMutation :=
       match c with KillAllProcesses _ => f (killAllMutation st) | _ => killAllMutation st end;
     pauseMutation :=
       match c with PauseProcess _ => f (pauseMutation st) | _ => pauseMutation st end;
     resumeMutation :=
       match c with ResumeProcess _ => f (resumeMutation st) | _ => resumeMutation st end;
     pendingMutations := pendingMutations st;
     nextMutationId := nextMutationId st |}.

Definition setPending (m : gmap nat Command) (n : nat) (st : HookState) : HookState :=
  {| wsProcesses := wsProcesses st;
     query := query st;
     killMutation := killMutation st;
     killAllMutation := killAllMutation st;
     pauseMutation := pauseMutation st;
     resumeMutation := resumeMutation st;
     pendingMutations := m;
     nextMutationId := n |}.

(** *** What the hook returns *)

(** [const processes = wsProcesses ?? apiProcesses ?? []] *)
Definition processes (st : HookState) : JsValue :=
  wsProcesses st ?? Query.data (query st) ?? JsArray [].

(** [processes.reduce((sum, p) => sum + p.total_count, 0)] *)
Definition processCount (st : HookState) : Completion JsDouble :=
  reduce (processes st) (fun sum p => js_add sum (ProjectProcesses.total_count p))
    (Finite 0).

Definition isLoading (st : HookState) : bool := Query.isLoading (query st).
Definition error (st : HookState) : option Error := Query.error (query st).
Definition isKilling (st : HookState) : bool := Mutation.isPending (killMutation st).
Definition isKillingAll (st : HookState) : bool := Mutation.isPending (killAllMutation st).

(** *** Push updates *)

(** [setWsProcesses(message.processes)] *)
Definition handleProcessUpdate (message : WSProcessUpdateMessage.t)
    (st : HookState) : HookState :=
  setWsProcesses (WSProcessUpdateMessage.processes message) st.

(** *** Commands *)

(** [queryClient.invalidateQueries({ queryKey: ['processes'] })] *)
Definition invalidateQueries (st : HookState) : HookState :=
  setQuery (Query.invalidate (query st)) st.

(** The [onSuccess] option of each of the four mutations. *)
Definition killMutation_onSuccess (st : HookState) : HookState :=
  invalidateQueries st.

Definition killAllMutation_onSuccess (st : HookState) : HookState :=
  setWsProcesses (JsArray []) (invalidateQueries st).

Definition pauseMutation_onSuccess (st : HookState) : HookState :=
  invalidateQueries st.

Definition resumeMutation_onSuccess (st : HookState) : HookState :=
  invalidateQueries st.

Definition onSuccess (c : Command) (st : HookState) : HookState :=
  match c with
  | KillProcess _ _ => killMutation_onSuccess st
  | KillAllProcesses _ => killAllMutation_onSuccess st
  | PauseProcess _ => pauseMutation_onSuccess st
  | ResumeProcess _ => resumeMutation_onSuccess st
  end.

(** [xMutation.mutateAsync(variables)], up to the point where the
    transport call is in flight: a mutation with a fresh id is built, the
    observer of the command attaches to it, and it turns [pending]. *)
Definition mutateAsync (c : Command) (st : HookState) : HookState :=
  let id := nextMutationId st in
  updateObserver c (Mutation.mutate id)
    (setPending (<[id := c]> (pendingMutations st)) (S id) st).

(** [await p] inside an [async] function: it goes on when [p] is
    fulfilled and throws the reason when [p] is rejected. *)
Definition await (p : Outcome) : Completion unit :=
  match p with
  | Fulfilled => Normal tt
  | Rejected e => Throw e
  end.

(** The promise an [async] function returns: fulfilled when its body runs
    to the end, rejected with whatever the body throws. *)
Definition async (body : Completion unit) : Outcome :=
  match body with
  | Normal _ => Fulfilled
  | Throw e => Rejected e
  end.

(** The action wrappers: [async (...) => { await xMutation.mutateAsync(...) }].
    Each has two parts: the call, which starts the mutation, and the
    promise it returns, settled from the promise of [mutateAsync] by the
    [await] that is its whole body. *)
Definition killProcess (pid : Z) (force : option bool) (st : HookState) : HookState :=
  mutateAsync (KillProcess pid force) st.

Definition killAllProcesses (force : option bool) (st : HookState) : HookState :=
  mutateAsync (KillAllProcesses force) st.

Definition pauseProcess (pid : Z) (st : HookState) : HookState :=
  mutateAsync (PauseProcess pid) st.

Definition resumeProcess (pid : Z) (st : HookState) : HookState :=
  mutateAsync (ResumeProcess pid) st.

Definition call (c : Command) (st : HookState) : HookState :=
  match c with
  | KillProcess pid force => killProcess pid force st
  | KillAllProcesses force => killAllProcesses force st
  | PauseProcess pid => pauseProcess pid st
  | ResumeProcess pid => resumeProcess pid st
  end.

Definition killProcess_promise (mutation : Outcome) : Outcome :=
  async (await mutation).

Definition killAllProcesses_promise (mutation : Outcome) : Outcome :=
  async (await mutation).

Definition pauseProcess_promise (mutation : Outcome) : Outcome :=
  async (await mutation).

Definition resumeProcess_promise (mutation : Outcome) : Outcome :=
  async (await mutation).

Definition promise (c : Command) (mutation : Outcome) : Outcome :=
  match c with
  | KillProcess _ _ => killProcess_promise mutation
  | KillAllProcesses _ => killAllProcesses_promise mutation
  | PauseProcess _ => pauseProcess_promise mutation
  | ResumeProcess _ => resumeProcess_promise mutation
  end.

(** The transport call of mutation [id] settles with [r]. On fulfilment the
    mutation runs [onSuccess] and then reports success; on rejection it
    reports the error (no [onError] is configured). The promise of
    [mutateAsync] settles as the transport call did, and the second
    component is how the promise of the action wrapper settles from it. *)
Definition settle (id : nat) (r : Outcome) (st : HookState)
    : HookState * option Outcome :=
  match pendingMutations st !! id with
  | None => (st, None)
  | Some c =>
      let retire st' :=
        setPending (delete id (pendingMutations st')) (nextMutationId st') st' in
      match r with
      | Fulfilled =>
          (retire (updateObserver c (Mutation.notify id MSuccess) (onSuccess c st)),
           Some (promise c Fulfilled))
      | Rejected e =>
          (retire (updateObserver c (Mutation.notify id MError) st),
           Some (promise c (Rejected e)))
      end
  end.

(** *** Sessions *)

(** What can happen to a mounted hook, one event-loop turn at a time. *)
Inductive Event :=
  | WsMessage (message : WSProcessUpdateMessage.t)
  | PollFulfilled (s : Snapshot)
  | PollRejected (e : Error)
  | Call (c : Command)
  | Settle (id : nat) (r : Outcome).

Definition step (st : HookState) (ev : Event) : HookState :=
  match ev with
  | WsMessage message => handleProcessUpdate message st
  | PollFulfilled s => setQuery (Query.fulfilled s (query st)) st
  | PollRejected e => setQuery (Query.rejected e (query st)) st
  | Call c => call c st
  | Settle id r => fst (settle id r st)
  end.

Definition run (st : HookState) (evs : list Event) : HookState :=
  fold_left step evs st.

(** ** Reference definitions, in the words of the specification *)

(** A snapshot arriving at the store: pushed on the socket, or fetched by
    the poll. *)
Inductive Arrival :=
  | Push (s : Snapshot)
  | Poll (s : Snapshot).

Definition arrival_event (a : Arrival) : Event :=
  match a with
  | Push s => WsMessage {| WSProcessUpdateMessage.processes := JsArray s |}
  | Poll s => PollFulfilled s
  end.

Definition pushed (a : Arrival) : option Snapshot :=
  match a with Push s => Some s | Poll _ => None end.

Definition polled (a : Arrival) : option Snapshot :=
  match a with Poll s => Some s | Push _ => None end.

(** "The most recently applied push snapshot if any push has ever been
    applied, else the most recently applied poll snapshot, else empty." *)
Definition currentView_spec (arrivals : list Arrival) : Snapshot :=
  match last (omap pushed arrivals) with
  | Some s => s
  | None => default [] (last (omap polled arrivals))
  end.

(** "Count of all nodes (including descendants)". *)
Fixpoint node_count (p : ProcessInfo) : nat :=
  match p with
  | mkProcessInfo _ _ _ _ cs => S (foldr (fun c n => (node_count c + n)%nat) 0%nat cs)
  end.

Definition forest_count (ps : list ProcessInfo) : nat :=
  foldr (fun c n => (node_count c + n)%nat) 0%nat ps.

(** The number of ProcessNode instances across all trees of a snapshot. *)
Definition snapshot_nodes (v : Snapshot) : nat :=
  foldr (fun p n => (forest_count (ProjectProcesses.processes p) + n)%nat) 0%nat v.

(** "Sum of [total_count] over all ProjectProcesses". *)
Definition sum_total_count (v : Snapshot) : Z :=
  foldr (fun p acc => ProjectProcesses.total_count p + acc) 0 v.

(** The [total_count] fields add up, in magnitude, to less than 2^53: every
    partial sum is a whole number that a double holds exactly. *)
Definition sum_abs_total_count (v : Snapshot) : Z :=
  foldr (fun p acc => Z.abs (ProjectProcesses.total_count p) + acc) 0 v.

Definition safe_counts (v : Snapshot) : Prop :=
  sum_abs_total_count v < 2 ^ 53.

(** A snapshot whose [total_count] fields equal the recursive count of
    [processes]. *)
Definition well_formed (v : Snapshot) : Prop :=
  Forall (fun p => ProjectProcesses.total_count p
                   = Z.of_nat (forest_count (ProjectProcesses.processes p))) v.

(** The slots hold what their TypeScript types say:
    [ProjectProcesses[] | null] and [ProjectProcesses[] | undefined]. *)
Definition typed_ws (v : JsValue) : bool :=
  match v with null | JsArray _ => true | _ => false end.

Definition typed_data (v : JsValue) : bool :=
  match v with undefined | JsArray _ => true | _ => false end.

Definition Typed (st : HookState) : Prop :=
  typed_ws (wsProcesses st) = true /\ typed_data (Query.data (query st)) = true.

(** A message of the declared shape. *)
Definition snapshot_shaped (message : WSProcessUpdateMessage.t) : bool :=
  match WSProcessUpdateMessage.processes message with
  | JsArray _ => true
  | _ => false
  end.

Definition typed_event (ev : Event) : bool :=
  match ev with
  | WsMessage message => snapshot_shaped message
  | _ => true
  end.

(** *** Events and values by shape *)

(** A push message, as opposed to every other event. *)
Definition is_push (ev : Event) : bool :=
  match ev with WsMessage _ => true | _ => false end.

(** [null] or [undefined]. *)
Definition nullish (v : JsValue) : bool :=
  match v with undefined | null => true | _ => false end.

(** *** Requests in flight *)

(** Which of the four observers a command goes through. *)
Inductive Kind := KKill | KKillAll | KPause | KResume.

Definition kind (c : Command) : Kind :=
  match c with
  | KillProcess _ _ => KKill
  | KillAllProcesses _ => KKillAll
  | PauseProcess _ => KPause
  | ResumeProcess _ => KResume
  end.

Definition Kind_eqb (a b : Kind) : bool :=
  match a, b with
  | KKill, KKill | KKillAll, KKillAll | KPause, KPause | KResume, KResume => true
  | _, _ => false
  end.

Definition observer (k : Kind) (st : HookState) : Mutation.t :=
  match k with
  | KKill => killMutation st
  | KKillAll => killAllMutation st
  | KPause => pauseMutation st
  | KResume => resumeMutation st
  end.

(** A request of kind [k] is outstanding: its transport call has not
    settled. *)
Definition outstanding (k : Kind) (st : HookState) : Prop :=
  exists id c, pendingMutations st !! id = Some c /\ kind c = k.

(** Reading a session left to right: the number of calls so far, and the
    id given to the most recent call of kind [k]. *)
Definition note_call (k : Kind) (acc : nat * option nat) (ev : Event)
    : nat * option nat :=
  match ev with
  | Call c => (S (fst acc), if Kind_eqb (kind c) k then Some (fst acc) else snd acc)
  | _ => acc
  end.

Definition latest_call (k : Kind) (evs : list Event) : option nat :=
  snd (fold_left (note_call k) evs (0%nat, None)).

Definition calls (k : Kind) (evs : list Event) : nat :=
  fst (fold_left (note_call k) evs (0%nat, None)).

(** The status a settled mutation reports to its observer. *)
Definition settled_status (r : Outcome) : MutationStatus :=
  match r with Fulfilled => MSuccess | Rejected _ => MError end.

(** The observer of kind [k] is attached to a mutation that was given an
    id, reports [pending] exactly while that mutation is in flight, and
    that mutation is of its own kind. *)
Definition observer_ok (k : Kind) (st : HookState) : Prop :=
  match Mutation.currentMutation (observer k st) with
  | None => Mutation.isPending (observer k st) = false
  | Some id =>
      (id < nextMutationId st)%nat
      /\ (Mutation.isPending (observer k st) = true
          <-> is_Some (pendingMutations st !! id))
      /\ (forall c, pendingMutations st !! id = Some c -> kind c = k)
  end.

(** Ids in flight have been given out, and every observer is in step. *)
Definition consistent (st : HookState) : Prop :=
  (forall id, is_Some (pendingMutations st !! id) -> (id < nextMutationId st)%nat)
  /\ (forall k, observer_ok k st).

(** ** Sample data and sessions *)

Definition demo_child : ProcessInfo :=
  {| pid := 2; name := "mcp"; status := running;
     started_at := "2025-01-01T00:00:00Z"; children := [] |}.

Definition demo_root : ProcessInfo :=
  {| pid := 1; name := "agent"; status := running;
     started_at := "2025-01-01T00:00:00Z"; children := [demo_child] |}.

(** The snapshot of the specification's example: one project, a root and
    its child, [total_count] 2. *)
Definition demo : ProjectProcesses.t :=
  {| ProjectProcesses.project_name := "demo";
     ProjectProcesses.processes := [demo_root];
     ProjectProcesses.total_count := 2 |}.

Definition other : ProjectProcesses.t :=
  {| ProjectProcesses.project_name := "other";
     ProjectProcesses.processes := [demo_child];
     ProjectProcesses.total_count := 1 |}.

(** A well-shaped snapshot whose counts leave the whole numbers that a
    double holds exactly. *)
Definition huge : ProjectProcesses.t :=
  {| ProjectProcesses.project_name := "huge";
     ProjectProcesses.processes := [];
     ProjectProcesses.total_count := 2 ^ 53 |}.

Definition one_more : ProjectProcesses.t :=
  {| ProjectProcesses.project_name := "one more";
     ProjectProcesses.processes := [];
     ProjectProcesses.total_count := 1 |}.

Definition pushed_huge : HookState :=
  run initialState [arrival_event (Push [huge; one_more])].

(** A session that has received a push message whose [processes] field
    is a string. *)
Definition pushed_string : HookState :=
  run initialState [WsMessage {| WSProcessUpdateMessage.processes := JsString "oops" |}].

(** A session that has received a polled and then a pushed snapshot. *)
Definition pushed_demo : HookState :=
  run initialState [PollFulfilled [other]; arrival_event (Push [demo])].

(** The same session with one kill-all in flight. *)
Definition killAll_in_flight : HookState :=
  run initialState
    [PollFulfilled [other]; arrival_event (Push [demo]);
     Call (KillAllProcesses (Some true))].

(** A session that never received a push: a polled snapshot is on
    display while a kill-all is in flight. *)
Definition polled_only_killAll : HookState :=
  run initialState [PollFulfilled [demo]; Call (KillAllProcesses None)].

(** The four actions, called in turn on a fresh hook. *)
Definition four_in_flight : HookState :=
  run initialState
    [Call (KillProcess 7 None); Call (KillAllProcesses (Some true));
     Call (PauseProcess 7); Call (ResumeProcess 7)].

(** Two kill calls overlap and the later one settles first. *)
Definition overlapping_kills : HookState :=
  run initialState
    [Call (KillProcess 1 None); Call (KillProcess 2 None); Settle 1 Fulfilled].

(** ** The process panel ([ProcessPanel.tsx]) *)

(** *** Icons, colours, uptime *)

(** [s.includes(sub)]: [sub] occurs in [s] at some position. *)
Fixpoint includes (s sub : string) : bool :=
  String.prefix sub s
  || match s with
     | EmptyString => false
     | String _ s' => includes s' sub
     end.

(** The four icons of lucide-react the panel uses for a process, each with
    the colour class it is drawn in. *)
Inductive Icon := Cpu | Globe | Zap | Activity.

Definition getProcessIcon (name : string) : Icon * string :=
  if String.eqb name "agent" then (Cpu, "text-cyan-400")
  else if includes name "browser" || includes name "chrome" then (Globe, "text-blue-400")
  else if includes name "mcp" then (Zap, "text-yellow-400")
  else (Activity, "text-gray-400").

(** The numbers [formatUptime] computes with: a time value is a whole
    number of milliseconds or [NaN] (an unparsable date), and every
    operation applied to it keeps whole numbers whole. Timestamps are far
    below 2^53, so the arithmetic is exact. *)
Inductive JsNum := NaN | Num (z : Z).

(** [a - b] *)
Definition num_sub (a b : JsNum) : JsNum :=
  match a, b with
  | Num x, Num y => Num (x - y)
  | _, _ => NaN
  end.

(** [Math.floor(a / k)] for a positive whole [k]. *)
Definition num_floor_div (a : JsNum) (k : Z) : JsNum :=
  match a with
  | Num x => Num (x / k)
  | NaN => NaN
  end.

(** [a % k]: the remainder has the sign of the dividend. *)
Definition num_rem (a : JsNum) (k : Z) : JsNum :=
  match a with
  | Num x => Num (Z.rem x k)
  | NaN => NaN
  end.

(** [a < k]: false when [a] is [NaN]. *)
Definition num_lt (a : JsNum) (k : Z) : bool :=
  match a with
  | Num x => x <? k
  | NaN => false
  end.

(** [`${a}`] *)
Definition num_to_string (a : JsNum) : string :=
  match a with
  | Num x => pretty x
  | NaN => "NaN"
  end.

(** The body of [formatUptime], given the two time values it reads:
    [new Date().getTime()] and [new Date(startedAt).getTime()]. Neither
    [Date] construction throws, so the [catch] branch (returning the empty
    string) has nothing to catch. *)
Definition formatUptime (now start : JsNum) : string :=
  let diff := num_floor_div (num_sub now start) 1000 in
  if num_lt diff 60 then num_to_string diff +:+ "s"
  else if num_lt diff 3600 then
    num_to_string (num_floor_div diff 60) +:+ "m " +:+ num_to_string (num_rem diff 60) +:+ "s"
  else
    let hours := num_floor_div diff 3600 in
    let mins := num_floor_div (num_rem diff 3600) 60 in
    num_to_string hours +:+ "h " +:+ num_to_string mins +:+ "m".

(** *** Rows and groups *)

(** The buttons of a row, each with the pid its handler is called with. *)
Inductive RowAction :=
  | PauseButton (pid : Z)
  | ResumeButton (pid : Z)
  | KillButton (pid : Z).

(** What a rendered [ProcessRow] shows, as far as layout and controls go:
    the pid, the left padding in pixels, the expand/collapse chevron
    ([None]: the spacer of a row without children) and the action
    buttons. *)
Record Row := mkRow {
  row_pid : Z;
  row_paddingLeft : Z;
  row_chevron : option bool;
  row_actions : list RowAction
}.

(** The pid a button's handler is called with. *)
Definition actionPid (act : RowAction) : Z :=
  match act with
  | PauseButton pid_ | ResumeButton pid_ | KillButton pid_ => pid_
  end.

(** The action buttons of a row by the status of its process. *)
Definition rowActions (process : ProcessInfo) : list RowAction :=
  match status process with
  | running => [PauseButton (pid process); KillButton (pid process)]
  | paused => [ResumeButton (pid process); KillButton (pid process)]
  | stopped => [KillButton (pid process)]
  end.

(** [ProcessRow]: the row of [process] followed, when it has children and
    is expanded, by the rows of its children one level deeper. Every
    mounted row has an [expanded] cell of its own; rows are keyed by pid
    under their parent, so a cell is found by the pids from the root down
    to the row. *)
Fixpoint ProcessRow (expanded : list Z -> bool) (path : list Z) (indent : nat)
    (process : ProcessInfo) : list Row :=
  match process with
  | mkProcessInfo pid_ _ _ _ children_ =>
      let key := path ++ [pid_] in
      let hasChildren := (0 <? length children_)%nat in
      {| row_pid := pid_;
         row_paddingLeft := 8 + Z.of_nat indent * 16;
         row_chevron := if hasChildren then Some (expanded key) else None;
         row_actions := rowActions process |}
      :: (if hasChildren && expanded key
          then flat_map (ProcessRow expanded key (S indent)) children_
          else [])
  end.

(** What a [ProjectGroup] shows under its header. *)
Inductive GroupBody :=
  | GroupCollapsed
  | NoProcesses
  | GroupRows (rows : list Row).

Record Group := mkGroup {
  group_name : string;
  group_badge : Z;
  group_body : GroupBody
}.

(** [ProjectGroup]: the header shows the name and [total_count]; the body,
    when expanded, the rows of the root processes or "No processes". *)
Definition ProjectGroup (groupExpanded : bool) (expanded : list Z -> bool)
    (project : ProjectProcesses.t) : Group :=
  {| group_name := ProjectProcesses.project_name project;
     group_badge := ProjectProcesses.total_count project;
     group_body :=
       if groupExpanded then
         if (0 <? length (ProjectProcesses.processes project))%nat
         then GroupRows (flat_map (ProcessRow expanded [] 0) (ProjectProcesses.processes project))
         else NoProcesses
       else GroupCollapsed |}.

(** The rows a group shows. *)
Definition group_rows (g : Group) : list Row :=
  match group_body g with
  | GroupRows rows => rows
  | GroupCollapsed | NoProcesses => []
  end.

(** *** The panel *)

(** The props of [ProcessPanel] that decide what it shows; [isKillingAll]
    is optional. *)
Record PanelProps := mkPanelProps {
  props_processes : Snapshot;
  props_processCount : JsDouble;
  props_isOpen : bool;
  props_isKillingAll : option bool
}.

(** The Kill All button when it is rendered: whether it is disabled, and
    its label. *)
Record KillAllButton := mkKillAllButton {
  button_disabled : bool;
  button_label : string
}.

Inductive PanelContent :=
  | NoRunningProcesses
  | Groups (gs : list Group).

(** What the panel shows: the count badge, the Kill All button, the
    content below the header, and the count named in the confirmation
    modal. *)
Record PanelView := mkPanelView {
  view_badge : option JsDouble;
  view_killAll : option KillAllButton;
  view_content : option PanelContent;
  view_modal : option JsDouble
}.

(** [ProcessPanel], with its [showKillAllConfirm] cell and the expansion
    cells of its groups (by project name) and rows. *)
Definition ProcessPanel (props : PanelProps) (showKillAllConfirm : bool)
    (groupExpanded : string -> bool) (expanded : string -> list Z -> bool)
    : PanelView :=
  {| view_badge :=
       if js_gt0 (props_processCount props) then Some (props_processCount props) else None;
     view_killAll :=
       if props_isOpen props && js_gt0 (props_processCount props) then
         Some {| button_disabled := default false (props_isKillingAll props);
                 button_label :=
                   if default false (props_isKillingAll props)
                   then "Stopping..." else "Kill All" |}
       else None;
     view_content :=
       if props_isOpen props then
         Some (if (length (props_processes props) =? 0)%nat then NoRunningProcesses
               else Groups ((fun project =>
                               ProjectGroup
                                 (groupExpanded (ProjectProcesses.project_name project))
                                 (expanded (ProjectProcesses.project_name project))
                                 project)
                            <$> props_processes props))
       else None;
     view_modal :=
       if showKillAllConfirm then Some (props_processCount props) else None |}.

(** Every expansion cell starts [true]. *)
Definition allExpanded : list Z -> bool := fun _ => true.

(** The pids of a tree in display order, each with its depth. *)
Fixpoint preorder (depth : nat) (p : ProcessInfo) : list (Z * nat) :=
  match p with
  | mkProcessInfo pid_ _ _ _ cs => (pid_, depth) :: flat_map (preorder (S depth)) cs
  end.

(** Where a row is drawn: its pid and left padding. *)
Definition rowLayout (r : Row) : Z * Z := (row_pid r, row_paddingLeft r).

(** Where a node at a given depth belongs: 8 pixels, and 16 more per
    level. *)
Definition depthLayout (node : Z * nat) : Z * Z := (node.1, 8 + Z.of_nat node.2 * 16).

(** *** The panel over the hook *)

(** The panel mounted with the values [useProcesses] returns as its props
    ([processes], [processCount], [isKillingAll], and the four actions as
    [onKillProcess], [onKillAll], [onPauseProcess], [onResumeProcess]),
    with the [isOpen] flag its parent holds and its own
    [showKillAllConfirm] cell. *)
Record App := mkApp {
  app_hook : HookState;
  app_isOpen : bool;
  app_showKillAllConfirm : bool
}.

Definition initialApp : App :=
  {| app_hook := initialState; app_isOpen := false; app_showKillAllConfirm := false |}.

(** The props the hook state gives the panel; none when computing
    [processCount] throws, which takes the render down. *)
Definition panelProps (a : App) : option PanelProps :=
  match processes (app_hook a), processCount (app_hook a) with
  | JsArray v, Normal n =>
      Some {| props_processes := v;
              props_processCount := n;
              props_isOpen := app_isOpen a;
              props_isKillingAll := Some (isKillingAll (app_hook a)) |}
  | _, _ => None
  end.

Definition render (a : App) : option PanelView :=
  (fun props => ProcessPanel props (app_showKillAllConfirm a)
                  (fun _ => true) (fun _ => allExpanded))
  <$> panelProps a.

(** The command behind a row button: [onKill(pid)] passes no [force]. *)
Definition rowCommand (act : RowAction) : Command :=
  match act with
  | PauseButton pid_ => PauseProcess pid_
  | ResumeButton pid_ => ResumeProcess pid_
  | KillButton pid_ => KillProcess pid_ None
  end.

(** What happens to the mounted panel: what the backend delivers, and
    what the user clicks. *)
Inductive AppEvent :=
  | Arrives (message : WSProcessUpdateMessage.t)
  | Polled (s : Snapshot)
  | PollFailed (e : Error)
  | Settled (id : nat) (r : Outcome)
  | ClickHeader
  | ClickKillAll
  | ClickCancel
  | ClickConfirm
  | ClickRow (act : RowAction).

Definition withHook (h : HookState) (a : App) : App :=
  {| app_hook := h; app_isOpen := app_isOpen a;
     app_showKillAllConfirm := app_showKillAllConfirm a |}.

Definition setShowKillAllConfirm (b : bool) (a : App) : App :=
  {| app_hook := app_hook a; app_isOpen := app_isOpen a; app_showKillAllConfirm := b |}.

(** [handleKillAll]: close the modal, then [await onKillAll(true)]. *)
Definition handleKillAll (a : App) : App :=
  withHook (killAllProcesses (Some true) (app_hook a)) (setShowKillAllConfirm false a).

(** A click reaches its handler only when the control is on screen and,
    for the Kill All button, not disabled. Row buttons are taken to be
    always clickable, which only adds sessions. *)
Definition app_step (a : App) (ev : AppEvent) : App :=
  match ev with
  | Arrives message => withHook (step (app_hook a) (WsMessage message)) a
  | Polled s => withHook (step (app_hook a) (PollFulfilled s)) a
  | PollFailed e => withHook (step (app_hook a) (PollRejected e)) a
  | Settled id r => withHook (step (app_hook a) (Settle id r)) a
  | ClickHeader =>
      {| app_hook := app_hook a; app_isOpen := negb (app_isOpen a);
         app_showKillAllConfirm := app_showKillAllConfirm a |}
  | ClickKillAll =>
      match render a ≫= view_killAll with
      | Some button => if button_disabled button then a else setShowKillAllConfirm true a
      | None => a
      end
  | ClickCancel =>
      match render a ≫= view_modal with
      | Some _ => setShowKillAllConfirm false a
      | None => a
      end
  | ClickConfirm =>
      match render a ≫= view_modal with
      | Some _ => handleKillAll a
      | None => a
      end
  | ClickRow act => withHook (step (app_hook a) (Call (rowCommand act))) a
  end.

Definition app_run (a : App) (evs : list AppEvent) : App :=
  fold_left app_step evs a.



(** The two buttons of the confirmation modal. *)
Definition closes_modal (ev : AppEvent) : bool :=
  match ev with ClickCancel | ClickConfirm => true | _ => false end.

(** No kill-all is in flight. *)
Definition no_killAll_pending (st : HookState) : Prop :=
  forall id c, pendingMutations st !! id = Some c -> kind c <> KKillAll.

(** What the mounted panel keeps true: the hook's observers are in step;
    a kill-all in flight is the one its observer follows and was called
    with [force = true]; and while the confirmation modal is open no
    kill-all is in flight. *)
Definition app_ok (a : App) : Prop :=
  consistent (app_hook a)
  /\ (forall id c,
        pendingMutations (app_hook a) !! id = Some c -> kind c = KKillAll ->
        Mutation.currentMutation (killAllMutation (app_hook a)) = Some id
        /\ c = KillAllProcesses (Some true))
  /\ (app_showKillAllConfirm a = true -> no_killAll_pending (app_hook a)).

(** *** Accounting for requests *)

(** Every settlement in the session belongs to a request in flight at
    that point: a transport call settles once, and only after it was
    made. *)
Fixpoint live (st : HookState) (evs : list Event) : bool :=
  match evs with
  | [] => true
  | ev :: evs' =>
      match ev with
      | Settle id _ => bool_decide (is_Some (pendingMutations st !! id))
      | _ => true
      end && live (step st ev) evs'
  end.

Definition is_call (ev : Event) : bool :=
  match ev with Call _ => true | _ => false end.

Definition is_fulfilled (ev : Event) : bool :=
  match ev with Settle _ Fulfilled => true | _ => false end.

Definition is_rejected (ev : Event) : bool :=
  match ev with Settle _ (Rejected _) => true | _ => false end.

Definition count (f : Event -> bool) (evs : list Event) : nat :=
  length (List.filter f evs).

(** Neither a push message nor a kill-all call. *)
Definition leaves_push_slot (ev : Event) : bool :=
  match ev with
  | WsMessage _ => false
  | Call (KillAllProcesses _) => false
  | _ => true
  end.

(** Sessions of the mounted panel used below. *)
Definition app_confirming : App :=
  app_run initialApp [Polled [demo]; ClickHeader; ClickKillAll].

(** A session with a kill running before a push, then settled. *)
Definition kill_then_poll : list Event :=
  [Call (KillProcess 1 None); Settle 0 Fulfilled; PollFulfilled [];
   Call (PauseProcess 2); Settle 1 (Rejected "no such pid")].

(** ** Basic facts *)

Lemma run_snoc st evs ev : run st (evs ++ [ev]) = step (run st evs) ev.
Proof. unfold run. by rewrite fold_left_app. Qed.

Lemma run_cons st ev evs : run st (ev :: evs) = run (step st ev) evs.
Proof. done. Qed.

Lemma step_Call st c : step st (Call c) = mutateAsync c st.
Proof. by destruct c. Qed.

Lemma step_Settle st id r : step st (Settle id r) = fst (settle id r st).
Proof. done. Qed.

(** The view is the first slot that holds an array. *)
Lemma processes_ws_array st s : wsProcesses st = JsArray s -> processes st = JsArray s.
Proof. unfold processes. by intros ->. Qed.

Lemma processes_typed st :
  Typed st -> exists v, processes st = JsArray v.
Proof.
  intros [Hws Hdata]. unfold processes.
  destruct (wsProcesses st), (Query.data (query st)); simplify_eq/=; eauto.
Qed.

(** Case analysis on what settling mutation [id] does: nothing when the id
    is unknown, else the handlers of the command it belongs to. *)
Ltac settle_cases id r :=
  unfold settle;
  let c := fresh "c" in
  destruct (pendingMutations _ !! id) as [c|]; [destruct r, c|]; try done.

(** Events of the declared shapes keep the slots typed. *)
Lemma step_typed st ev : typed_event ev = true -> Typed st -> Typed (step st ev).
Proof.
  intros Hev [Hws Hdata]. destruct ev as [[v]| | |c|id r]; simpl in *.
  - by destruct v.
  - done.
  - done.
  - by destruct c.
  - settle_cases id r.
Qed.

Lemma run_typed evs : forall st,
  forallb typed_event evs = true -> Typed st -> Typed (run st evs).
Proof.
  induction evs as [|ev evs IH]; intros st Hevs Hst; [done|].
  simpl in Hevs. apply andb_prop in Hevs as [Hev Hevs].
  rewrite run_cons. apply IH; [done|]. by apply step_typed.
Qed.

(** Every session of well-shaped events ends in a typed state. *)
Lemma session_typed evs :
  forallb typed_event evs = true -> Typed (run initialState evs).
Proof. intros Hevs. by apply run_typed. Qed.

(** ** Push wins once seen *)

Section Arrivals.
Implicit Types (tr : list Arrival) (s : Snapshot).

(** The push slot holds the last pushed snapshot, [null] before the
    first one. *)
Lemma wsProcesses_arrivals tr :
  wsProcesses (run initialState (arrival_event <$> tr))
  = from_option JsArray null (last (omap pushed tr)).
Proof.
  induction tr as [|a tr IH] using rev_ind; [done|].
  rewrite fmap_app. change (arrival_event <$> [a]) with [arrival_event a].
  rewrite run_snoc, omap_app. destruct a as [s|s]; simpl.
  - by rewrite last_snoc.
  - by rewrite app_nil_r.
Qed.

(** The poll slot holds the last fetched snapshot, [undefined] before
    the first one. *)
Lemma data_arrivals tr :
  Query.data (query (run initialState (arrival_event <$> tr)))
  = from_option JsArray undefined (last (omap polled tr)).
Proof.
  induction tr as [|a tr IH] using rev_ind; [done|].
  rewrite fmap_app. change (arrival_event <$> [a]) with [arrival_event a].
  rewrite run_snoc, omap_app. destruct a as [s|s]; simpl.
  - by rewrite app_nil_r.
  - by rewrite last_snoc.
Qed.
End Arrivals.

(** C1. After any sequence of push and poll snapshots, the exposed
    [processes] is the last pushed snapshot if there was a push, else the
    last polled snapshot, else the empty array; and a poll arriving once a
    push has been applied leaves [processes] as it was. *)
Theorem processes_push_wins :
  (forall tr : list Arrival,
     processes (run initialState (arrival_event <$> tr))
     = JsArray (currentView_spec tr))
  /\ (forall (tr : list Arrival) (s : Snapshot),
        is_Some (last (omap pushed tr)) ->
        processes (run initialState (arrival_event <$> (tr ++ [Poll s])))
        = processes (run initialState (arrival_event <$> tr))).
Proof.
  assert (Hview : forall tr : list Arrival,
    processes (run initialState (arrival_event <$> tr))
    = JsArray (currentView_spec tr)).
  { intros tr. unfold processes, currentView_spec.
    rewrite wsProcesses_arrivals, data_arrivals.
    destruct (last (omap pushed tr)) as [p|]; [done|].
    by destruct (last (omap polled tr)). }
  split; [exact Hview|].
  intros tr s [p Hp]. rewrite !Hview. f_equal.
  unfold currentView_spec. rewrite omap_app. simpl. rewrite app_nil_r.
  by rewrite Hp.
Qed.

(** A run of C1: two polls around two pushes, the last push stays. *)
Example processes_push_wins_run :
  processes (run initialState
    (arrival_event <$> [Poll [other]; Push [demo]; Push [demo; other]; Poll []]))
  = JsArray [demo; other].
Proof. reflexivity. Qed.

(** ** Counting *)

(** Below 2^53 in magnitude a whole number is its own double. *)
Lemma round_double_exact n : Z.abs n < 2 ^ 53 -> round_double n = Finite n.
Proof.
  intros Hn. unfold round_double.
  assert (Hshift : Z.max 0 (Z.log2 (Z.abs n) + 1 - 53) = 0).
  { destruct (Z.eq_dec (Z.abs n) 0) as [->|Hne]; [done|].
    assert (Z.log2 (Z.abs n) < 53) by (apply Z.log2_lt_pow2; [lia|exact Hn]). lia. }
  rewrite Hshift. cbn [Z.eqb]. cbv zeta. rewrite Z.shiftr_0_r, Z.shiftl_0_r.
  assert (2 ^ 53 < 2 ^ 1024) by (apply Z.pow_lt_mono_r; lia).
  destruct (Z.leb_spec (2 ^ 1024) (Z.abs n)) as [?|_]; [lia|].
  f_equal. by destruct n.
Qed.

Lemma sum_abs_total_count_nonneg (v : Snapshot) : 0 <= sum_abs_total_count v.
Proof.
  induction v as [|p v IH]; cbn [sum_abs_total_count foldr]; [done|].
  fold (sum_abs_total_count v). lia.
Qed.

(** While the magnitudes stay below 2^53 the fold adds exactly. *)
Lemma fold_left_js_add (v : Snapshot) : forall acc : Z,
  Z.abs acc + sum_abs_total_count v < 2 ^ 53 ->
  fold_left (fun sum p => js_add sum (ProjectProcesses.total_count p)) v (Finite acc)
  = Finite (acc + sum_total_count v).
Proof.
  induction v as [|p v IH]; intros acc Hsafe;
    cbn [fold_left sum_abs_total_count sum_total_count foldr js_add] in *.
  - f_equal. lia.
  - fold (sum_abs_total_count v) in Hsafe. fold (sum_total_count v).
    pose proof (sum_abs_total_count_nonneg v).
    rewrite round_double_exact by lia. rewrite IH by lia. f_equal. lia.
Qed.

Lemma sum_total_count_well_formed (v : Snapshot) :
  well_formed v ->
  sum_total_count v = Z.of_nat (snapshot_nodes v)
  /\ sum_abs_total_count v = Z.of_nat (snapshot_nodes v).
Proof.
  induction 1 as [|p v Hp _ [IH IHabs]]; simpl; [done|].
  rewrite Hp, IH, IHabs. lia.
Qed.

(** Over an array the count is the fold of [js_add], and never throws. *)
Lemma processCount_reduce st v :
  processes st = JsArray v ->
  processCount st
  = Normal (fold_left (fun sum p => js_add sum (ProjectProcesses.total_count p)) v
              (Finite 0)).
Proof. intros Hv. unfold processCount. by rewrite Hv. Qed.

Lemma processCount_safe st v :
  processes st = JsArray v -> safe_counts v ->
  processCount st = Normal (sum_total_count v).
Proof.
  intros Hv Hsafe. rewrite (processCount_reduce st v Hv).
  rewrite fold_left_js_add by (unfold safe_counts in Hsafe; lia). done.
Qed.

(** C5, as stated, fails in two ways. After a push message whose
    [processes] field is a string, [processCount] throws, so it is no sum
    at all; and over a well-shaped snapshot whose counts are 2^53 and 1,
    double addition gives 2^53, one less than their sum. *)
Lemma processCount_not_always_sum :
  processCount pushed_string = Throw "TypeError: processes.reduce is not a function"
  /\ (processes pushed_huge = JsArray [huge; one_more]
      /\ sum_total_count [huge; one_more] = 2 ^ 53 + 1
      /\ processCount pushed_huge = Normal (2 ^ 53))
  /\ ~ (forall st, exists v : Snapshot,
          processes st = JsArray v
          /\ processCount st = Normal (sum_total_count v)).
Proof.
  split; [reflexivity|]. split; [repeat split; vm_compute; reflexivity|].
  intros Hclaim. destruct (Hclaim pushed_string) as (v & Hv & _). discriminate Hv.
Qed.

(** C5, amended. In every state whose slots hold what their types say,
    [processCount] is the sum of [total_count] over the groups of
    [processes] as long as those counts add up, in magnitude, to less
    than 2^53; for a well-formed snapshot of fewer than 2^53 nodes it is
    the number of process nodes of all its trees, descendants included. *)
Theorem processCount_sum st :
  Typed st ->
  exists v : Snapshot,
    processes st = JsArray v
    /\ (safe_counts v -> processCount st = Normal (sum_total_count v))
    /\ (well_formed v ->
        Z.of_nat (snapshot_nodes v) < 2 ^ 53 ->
        processCount st = Normal (Z.of_nat (snapshot_nodes v))).
Proof.
  intros Hst. destruct (processes_typed st Hst) as [v Hv].
  exists v. split; [done|]. split; [by apply processCount_safe|].
  intros Hwf Hnodes. destruct (sum_total_count_well_formed v Hwf) as [Hsum Habs].
  rewrite <- Hsum. apply processCount_safe; [done|].
  unfold safe_counts. by rewrite Habs.
Qed.

Lemma processCount_sum_witness :
  Typed pushed_demo
  /\ exists v : Snapshot,
       processes pushed_demo = JsArray v
       /\ (safe_counts v -> processCount pushed_demo = Normal (sum_total_count v))
       /\ (well_formed v ->
           Z.of_nat (snapshot_nodes v) < 2 ^ 53 ->
           processCount pushed_demo = Normal (Z.of_nat (snapshot_nodes v))).
Proof.
  split; [split; reflexivity|].
  apply (processCount_sum pushed_demo). split; reflexivity.
Defined.

(** The example of the specification: the snapshot [demo] is well formed,
    has two nodes, and counts 2. *)
Example processCount_demo :
  well_formed [demo]
  /\ snapshot_nodes [demo] = 2%nat
  /\ processCount pushed_demo = Normal 2.
Proof.
  split; [|split; reflexivity].
  constructor; [reflexivity | constructor].
Qed.

(** ** Commands *)

(** Calling an action touches neither slot. *)
Lemma mutateAsync_store c st :
  wsProcesses (mutateAsync c st) = wsProcesses st
  /\ query (mutateAsync c st) = query st.
Proof. by destruct c. Qed.

Lemma mutateAsync_processes c st : processes (mutateAsync c st) = processes st.
Proof. unfold processes. by destruct (mutateAsync_store c st) as [-> ->]. Qed.

(** The call is in flight under the id it was given. *)
Lemma mutateAsync_pending c st :
  pendingMutations (mutateAsync c st) !! nextMutationId st = Some c.
Proof. destruct c; simpl; apply lookup_insert_eq. Qed.

(** A rejected transport call touches neither slot, whatever the command. *)
Lemma settle_rejected_store id e st :
  wsProcesses (fst (settle id (Rejected e) st)) = wsProcesses st
  /\ query (fst (settle id (Rejected e) st)) = query st.
Proof.
  unfold settle. destruct (pendingMutations st !! id) as [c|]; [|done].
  by destruct c.
Qed.

Lemma settle_rejected_processes id e st :
  processes (fst (settle id (Rejected e) st)) = processes st.
Proof. unfold processes. by destruct (settle_rejected_store id e st) as [-> ->]. Qed.

(** A fulfilled transport call invalidates the query, whatever the command. *)
Lemma settle_fulfilled_query id c st :
  pendingMutations st !! id = Some c ->
  query (fst (settle id Fulfilled st)) = Query.invalidate (query st).
Proof. unfold settle. intros ->. by destruct c. Qed.

(** A fulfilled kill-all writes the empty array into the push slot. *)
Lemma settle_fulfilled_killAll id force st :
  pendingMutations st !! id = Some (KillAllProcesses force) ->
  wsProcesses (fst (settle id Fulfilled st)) = JsArray [].
Proof. unfold settle. by intros ->. Qed.

(** How the caller's promise settles. *)
Lemma settle_outcome id c r st :
  pendingMutations st !! id = Some c -> snd (settle id r st) = Some r.
Proof. unfold settle. intros ->. by destruct r, c. Qed.

(** C2. When a kill-all call is in flight and its transport call
    succeeds, the exposed [processes] is the empty array in the state the
    success handler leaves, before any later poll or push. *)
Theorem killAll_success_empties st id force :
  pendingMutations st !! id = Some (KillAllProcesses force) ->
  processes (step st (Settle id Fulfilled)) = JsArray []
  /\ processCount (step st (Settle id Fulfilled)) = Normal 0
  /\ snd (settle id Fulfilled st) = Some Fulfilled.
Proof.
  intros Hid.
  assert (Hview : processes (step st (Settle id Fulfilled)) = JsArray []).
  { apply processes_ws_array. simpl. by eapply settle_fulfilled_killAll. }
  split; [done|]. split; [by rewrite (processCount_reduce _ _ Hview)|].
  by eapply settle_outcome.
Qed.

Lemma killAll_success_empties_witness :
  (pendingMutations killAll_in_flight !! 0%nat = Some (KillAllProcesses (Some true))
   /\ processes killAll_in_flight = JsArray [demo])
  /\ processes (step killAll_in_flight (Settle 0 Fulfilled)) = JsArray []
  /\ processCount (step killAll_in_flight (Settle 0 Fulfilled)) = Normal 0
  /\ snd (settle 0 Fulfilled killAll_in_flight) = Some Fulfilled.
Proof.
  split; [split; reflexivity|].
  apply (killAll_success_empties killAll_in_flight 0%nat (Some true)).
  reflexivity.
Defined.

(** C3. When a kill-all call fails, the push slot and the exposed
    [processes] are what they were: neither the call nor its rejection
    writes the empty array, and the caller's promise rejects. *)
Theorem killAll_failure_keeps_view st id force e :
  pendingMutations st !! id = Some (KillAllProcesses force) ->
  wsProcesses (step st (Settle id (Rejected e))) = wsProcesses st
  /\ processes (step st (Settle id (Rejected e))) = processes st
  /\ processCount (step st (Settle id (Rejected e))) = processCount st
  /\ snd (settle id (Rejected e) st) = Some (Rejected e)
  /\ (forall st0, st = step st0 (Call (KillAllProcesses force)) ->
      processes (step st (Settle id (Rejected e))) = processes st0).
Proof.
  intros Hid. simpl.
  pose proof (settle_rejected_processes id e st) as Hview.
  split; [apply settle_rejected_store|]. split; [done|].
  split; [unfold processCount; by rewrite Hview|].
  split; [by eapply settle_outcome|].
  intros st0 ->. rewrite Hview. apply mutateAsync_processes.
Qed.

Lemma killAll_failure_keeps_view_witness :
  pendingMutations killAll_in_flight !! 0%nat = Some (KillAllProcesses (Some true))
  /\ processes (step killAll_in_flight (Settle 0 (Rejected "boom"))) = JsArray [demo]
  /\ snd (settle 0 (Rejected "boom") killAll_in_flight) = Some (Rejected "boom").
Proof.
  split; [reflexivity|].
  destruct (killAll_failure_keeps_view killAll_in_flight 0%nat (Some true) "boom"
              ltac:(reflexivity)) as (_ & Hview & _ & Hout & _).
  split; [rewrite Hview; reflexivity | exact Hout].
Defined.

(** The promise of a wrapper settles as the promise of [mutateAsync]
    does: the [await] lets a fulfilment through and rethrows a rejection. *)
Lemma promise_propagates c mutation : promise c mutation = mutation.
Proof. by destruct c, mutation. Qed.

(** C4. Each of the four operations [killProcess], [killAllProcesses],
    [pauseProcess] and [resumeProcess], called in any state, puts its own
    command in flight and touches neither slot nor the query. When the
    transport call of a command in flight succeeds, the query is
    invalidated (one more forced refetch) and the caller's promise
    fulfils; when it fails, both slots and the query are untouched and
    the caller's promise rejects with the transport error. *)
Theorem command_settlement :
  (forall st pid force,
     pendingMutations (killProcess pid force st) !! nextMutationId st
     = Some (KillProcess pid force)
     /\ wsProcesses (killProcess pid force st) = wsProcesses st
     /\ query (killProcess pid force st) = query st)
  /\ (forall st force,
        pendingMutations (killAllProcesses force st) !! nextMutationId st
        = Some (KillAllProcesses force)
        /\ wsProcesses (killAllProcesses force st) = wsProcesses st
        /\ query (killAllProcesses force st) = query st)
  /\ (forall st pid,
        pendingMutations (pauseProcess pid st) !! nextMutationId st
        = Some (PauseProcess pid)
        /\ wsProcesses (pauseProcess pid st) = wsProcesses st
        /\ query (pauseProcess pid st) = query st)
  /\ (forall st pid,
        pendingMutations (resumeProcess pid st) !! nextMutationId st
        = Some (ResumeProcess pid)
        /\ wsProcesses (resumeProcess pid st) = wsProcesses st
        /\ query (resumeProcess pid st) = query st)
  /\ (forall st id c,
        pendingMutations st !! id = Some c ->
        (query (step st (Settle id Fulfilled)) = Query.invalidate (query st)
         /\ Query.invalidations (query (step st (Settle id Fulfilled)))
            = S (Query.invalidations (query st))
         /\ snd (settle id Fulfilled st) = Some Fulfilled)
        /\ (forall e,
              wsProcesses (step st (Settle id (Rejected e))) = wsProcesses st
              /\ query (step st (Settle id (Rejected e))) = query st
              /\ processes (step st (Settle id (Rejected e))) = processes st
              /\ snd (settle id (Rejected e) st) = Some (Rejected e))).
Proof.
  split; [intros st pid_ force; split; [apply mutateAsync_pending|done]|].
  split; [intros st force; split; [apply mutateAsync_pending|done]|].
  split; [intros st pid_; split; [apply mutateAsync_pending|done]|].
  split; [intros st pid_; split; [apply mutateAsync_pending|done]|].
  intros st id c Hid. rewrite !step_Settle. split.
  - rewrite (settle_fulfilled_query id c st Hid).
    split; [done|]. split; [done|].
    unfold settle. by rewrite Hid, promise_propagates.
  - intros e. destruct (settle_rejected_store id e st) as [Hws Hq].
    split; [done|]. split; [done|].
    split; [apply settle_rejected_processes|].
    unfold settle. by rewrite Hid, promise_propagates.
Qed.

(** Each of the four operations, called on a fresh hook and then failed:
    its promise rejects with the error and the view is what it was. *)
Lemma command_settlement_witness :
  Forall (fun st1 =>
            snd (settle 0 (Rejected "no such pid") st1) = Some (Rejected "no such pid")
            /\ processes (step st1 (Settle 0 (Rejected "no such pid")))
               = processes initialState
            /\ Query.invalidations (query (step st1 (Settle 0 Fulfilled))) = 1%nat)
    [killProcess 7 None initialState; killAllProcesses (Some true) initialState;
     pauseProcess 7 initialState; resumeProcess 7 initialState].
Proof.
  destruct command_settlement as (Hkill & HkillAll & Hpause & Hresume & Hsettle).
  assert (Hafter : forall st1 c,
    pendingMutations st1 !! 0%nat = Some c ->
    processes st1 = processes initialState ->
    Query.invalidations (query st1) = 0%nat ->
    snd (settle 0 (Rejected "no such pid") st1) = Some (Rejected "no such pid")
    /\ processes (step st1 (Settle 0 (Rejected "no such pid"))) = processes initialState
    /\ Query.invalidations (query (step st1 (Settle 0 Fulfilled))) = 1%nat).
  { intros st1 c Hid Hview0 Hinv0.
    destruct (Hsettle st1 0%nat c Hid) as [(_ & Hinv & _) Hrej].
    destruct (Hrej "no such pid") as (_ & _ & Hview & Hout).
    split; [done|]. split; [by rewrite Hview|by rewrite Hinv, Hinv0]. }
  constructor; [|constructor; [|constructor; [|constructor; [|constructor]]]].
  - apply (Hafter _ _ (proj1 (Hkill initialState 7 None))); reflexivity.
  - apply (Hafter _ _ (proj1 (HkillAll initialState (Some true)))); reflexivity.
  - apply (Hafter _ _ (proj1 (Hpause initialState 7))); reflexivity.
  - apply (Hafter _ _ (proj1 (Hresume initialState 7))); reflexivity.
Defined.

(** Each of the four calls of [four_in_flight], settled either way. *)
Example command_settlement_run :
  (fun id => (Query.invalidations (query (step four_in_flight (Settle id Fulfilled))),
              wsProcesses (step four_in_flight (Settle id Fulfilled)),
              snd (settle id (Rejected "down") four_in_flight)))
    <$> [0; 1; 2; 3]%nat
  = [(1%nat, null, Some (Rejected "down"));
     (1%nat, JsArray [], Some (Rejected "down"));
     (1%nat, null, Some (Rejected "down"));
     (1%nat, null, Some (Rejected "down"))].
Proof. reflexivity. Qed.

(** ** The clear after a kill-all *)

(** C7, as stated, fails: right after [killAllProcesses] is called, with
    the transport call still pending, the view still shows the pushed
    snapshot. *)
Lemma killAll_call_keeps_view :
  isKillingAll (step pushed_demo (Call (KillAllProcesses (Some true)))) = true
  /\ processes (step pushed_demo (Call (KillAllProcesses (Some true)))) = JsArray [demo]
  /\ ~ (forall st force,
          processes (step st (Call (KillAllProcesses force))) = JsArray []).
Proof.
  split; [reflexivity|]. split; [reflexivity|].
  intros Hclaim. specialize (Hclaim pushed_demo (Some true)). discriminate Hclaim.
Qed.

(** C7, amended. Calling [killAllProcesses] leaves the view as it was
    while the transport call is pending; the view is emptied when the call
    is reported successful, and stays as it was when the call is reported
    failed. *)
Theorem killAll_clears_on_success_only st force :
  let id := nextMutationId st in
  let st1 := step st (Call (KillAllProcesses force)) in
  isKillingAll st1 = true
  /\ pendingMutations st1 !! id = Some (KillAllProcesses force)
  /\ wsProcesses st1 = wsProcesses st
  /\ processes st1 = processes st
  /\ processes (step st1 (Settle id Fulfilled)) = JsArray []
  /\ (forall e, processes (step st1 (Settle id (Rejected e))) = processes st).
Proof.
  intros id st1.
  assert (Hid : pendingMutations st1 !! id = Some (KillAllProcesses force))
    by apply mutateAsync_pending.
  split; [done|]. split; [done|]. split; [done|]. split; [done|]. split.
  - apply processes_ws_array. simpl. by eapply settle_fulfilled_killAll.
  - intros e. simpl. by rewrite settle_rejected_processes.
Qed.

(** Once the push slot holds an array, only a push message or a fulfilled
    kill-all replaces it, and the latter by the empty array. *)
Lemma step_keeps_empty_ws st ev :
  is_push ev = false ->
  wsProcesses st = JsArray [] -> wsProcesses (step st ev) = JsArray [].
Proof.
  intros Hev Hws. destruct ev as [m|s|e|c|id r]; try done.
  - by rewrite step_Call.
  - rewrite step_Settle. settle_cases id r.
Qed.

Lemma run_keeps_empty_ws evs : forall st,
  forallb (fun ev => negb (is_push ev)) evs = true ->
  wsProcesses st = JsArray [] -> wsProcesses (run st evs) = JsArray [].
Proof.
  induction evs as [|ev evs IH]; intros st Hevs Hws; [done|].
  simpl in Hevs. apply andb_prop in Hevs as [Hev Hevs].
  rewrite run_cons. apply IH; [done|].
  apply step_keeps_empty_ws; [|done]. by destruct (is_push ev).
Qed.

(** C10. A fulfilled kill-all writes the empty array into the push slot
    itself, whether or not a push had been received before. From then on,
    through any events that are not push messages (polls included), the
    view stays empty; the next push message replaces it. *)
Theorem killAll_success_masks_polls st id force :
  pendingMutations st !! id = Some (KillAllProcesses force) ->
  wsProcesses (step st (Settle id Fulfilled)) = JsArray []
  /\ (forall evs,
        forallb (fun ev => negb (is_push ev)) evs = true ->
        processes (run (step st (Settle id Fulfilled)) evs) = JsArray [])
  /\ (forall evs s,
        forallb (fun ev => negb (is_push ev)) evs = true ->
        processes (step (run (step st (Settle id Fulfilled)) evs) (arrival_event (Push s)))
        = JsArray s).
Proof.
  intros Hid.
  assert (Hws : wsProcesses (step st (Settle id Fulfilled)) = JsArray [])
    by (simpl; by eapply settle_fulfilled_killAll).
  split; [done|]. split.
  - intros evs Hevs. apply processes_ws_array. by apply run_keeps_empty_ws.
  - intros evs s _. by apply processes_ws_array.
Qed.

Lemma killAll_success_masks_polls_witness :
  (pendingMutations polled_only_killAll !! 0%nat = Some (KillAllProcesses None)
   /\ wsProcesses polled_only_killAll = null
   /\ processes polled_only_killAll = JsArray [demo])
  /\ processes (run (step polled_only_killAll (Settle 0 Fulfilled))
                  [PollFulfilled [demo]; PollRejected "down"; PollFulfilled [demo; other]])
     = JsArray [].
Proof.
  split; [repeat split; reflexivity|].
  destruct (killAll_success_masks_polls polled_only_killAll 0%nat None ltac:(reflexivity))
    as (_ & Hpolls & _).
  apply Hpolls. reflexivity.
Defined.

(** ** Messages of an unexpected shape *)

(** C6, as stated, fails: a message whose [processes] field is [null] is
    not discarded. It empties the push slot, so the view and the count
    change from the pushed snapshot to the polled one; and a field that is
    no array makes the count throw. *)
Lemma malformed_push_changes_view :
  snapshot_shaped {| WSProcessUpdateMessage.processes := null |} = false
  /\ processes pushed_demo = JsArray [demo]
  /\ processCount pushed_demo = Normal 2
  /\ processes (handleProcessUpdate {| WSProcessUpdateMessage.processes := null |} pushed_demo)
     = JsArray [other]
  /\ processCount (handleProcessUpdate {| WSProcessUpdateMessage.processes := null |} pushed_demo)
     = Normal 1
  /\ processCount
       (handleProcessUpdate {| WSProcessUpdateMessage.processes := JsString "oops" |} pushed_demo)
     = Throw "TypeError: processes.reduce is not a function"
  /\ ~ (forall message st,
          snapshot_shaped message = false ->
          processes (handleProcessUpdate message st) = processes st).
Proof.
  repeat (split; [reflexivity|]).
  intros Hclaim.
  specialize (Hclaim {| WSProcessUpdateMessage.processes := null |} pushed_demo eq_refl).
  discriminate Hclaim.
Qed.

(** C6, amended. [handleProcessUpdate] checks nothing and discards
    nothing: the push slot becomes the message's [processes] field,
    whatever its shape, and every other part of the state stays as it
    was. When that field is [null] or [undefined], the view falls back to
    the poll slot, else to the empty array; if the poll slot holds what
    its type says, that view is an array and the count is computed over
    it without throwing (it is the sum of its [total_count] fields when
    these stay below 2^53 in magnitude); and such a message leaves the
    view as it was when the push slot held no snapshot. *)
Theorem handleProcessUpdate_stores_unchecked message st :
  handleProcessUpdate message st
  = {| wsProcesses := WSProcessUpdateMessage.processes message;
       query := query st;
       killMutation := killMutation st;
       killAllMutation := killAllMutation st;
       pauseMutation := pauseMutation st;
       resumeMutation := resumeMutation st;
       pendingMutations := pendingMutations st;
       nextMutationId := nextMutationId st |}
  /\ (nullish (WSProcessUpdateMessage.processes message) = true ->
      processes (handleProcessUpdate message st) = Query.data (query st) ?? JsArray []
      /\ (typed_data (Query.data (query st)) = true ->
          exists (v : Snapshot) (n : JsDouble),
            processes (handleProcessUpdate message st) = JsArray v
            /\ processCount (handleProcessUpdate message st) = Normal n
            /\ (safe_counts v -> n = Finite (sum_total_count v)))
      /\ (nullish (wsProcesses st) = true ->
          processes (handleProcessUpdate message st) = processes st)).
Proof.
  split; [done|]. intros Hnull.
  assert (Hview : processes (handleProcessUpdate message st)
                  = Query.data (query st) ?? JsArray []).
  { unfold processes. simpl.
    by destruct (WSProcessUpdateMessage.processes message). }
  split; [done|]. split.
  - intros Hdata.
    assert (exists v, processes (handleProcessUpdate message st) = JsArray v) as [v Hv].
    { rewrite Hview. destruct (Query.data (query st)); simplify_eq/=; eauto. }
    exists v. eexists. split; [done|]. split; [by apply processCount_reduce|].
    intros Hsafe. pose proof (processCount_safe _ _ Hv Hsafe) as Hsum.
    rewrite (processCount_reduce _ _ Hv) in Hsum. by injection Hsum.
  - intros Hws. rewrite Hview. unfold processes.
    by destruct (wsProcesses st).
Qed.

Lemma handleProcessUpdate_stores_unchecked_witness :
  processes (handleProcessUpdate {| WSProcessUpdateMessage.processes := undefined |} pushed_demo)
  = JsArray [other]
  /\ pendingMutations
       (handleProcessUpdate {| WSProcessUpdateMessage.processes := undefined |} killAll_in_flight)
     = pendingMutations killAll_in_flight.
Proof.
  split.
  - destruct (handleProcessUpdate_stores_unchecked
                {| WSProcessUpdateMessage.processes := undefined |} pushed_demo)
      as (_ & Hnull).
    destruct (Hnull eq_refl) as (Hview & _). rewrite Hview. reflexivity.
  - destruct (handleProcessUpdate_stores_unchecked
                {| WSProcessUpdateMessage.processes := undefined |} killAll_in_flight)
      as (Hframe & _).
    rewrite Hframe. reflexivity.
Defined.

(** ** No data yet, or an empty snapshot *)




(** Before and after the first fetch settles, with and without an empty
    push. *)
Example empty_push_view_and_slot_run :
  (fun st => (wsProcesses st, processes st, isLoading st))
    <$> [initialState;
         run initialState [arrival_event (Push [])];
         run initialState [PollFulfilled []];
         run initialState [PollFulfilled [demo]; arrival_event (Push [])]]
  = [(null, JsArray [], true); (JsArray [], JsArray [], true);
     (null, JsArray [], false); (JsArray [], JsArray [], false)].
Proof. reflexivity. Qed.

(** An empty push over a polled snapshot: no fallback to the poll slot. *)
Example empty_push_over_poll :
  processes (run initialState (arrival_event <$> [Poll [demo]; Push []])) = JsArray []
  /\ processCount (run initialState (arrival_event <$> [Poll [demo]; Push []])) = Normal 0.
Proof. split; reflexivity. Qed.

(** The distinction lives in the push slot, not in what the hook returns:
    an empty push that arrives before the first fetch resolves leaves
    [processes] and [isLoading] as in the initial state. *)
Example empty_push_before_first_poll :
  wsProcesses (step initialState (arrival_event (Push []))) = JsArray []
  /\ wsProcesses initialState = null
  /\ processes (step initialState (arrival_event (Push []))) = processes initialState
  /\ isLoading (step initialState (arrival_event (Push []))) = isLoading initialState.
Proof. repeat split; reflexivity. Qed.

(** ** In-flight flags *)

Lemma Kind_eqb_eq a b : Kind_eqb a b = true <-> a = b.
Proof. by destruct a, b. Qed.

Lemma observer_updateObserver k c f st :
  observer k (updateObserver c f st)
  = if Kind_eqb (kind c) k then f (observer k st) else observer k st.
Proof. by destruct k, c. Qed.

Lemma observer_mutateAsync k c st :
  observer k (mutateAsync c st)
  = if Kind_eqb (kind c) k
    then Mutation.mutate (nextMutationId st) (observer k st)
    else observer k st.
Proof. by destruct k, c. Qed.

Lemma observer_settle k id c r st :
  pendingMutations st !! id = Some c ->
  observer k (fst (settle id r st))
  = if Kind_eqb (kind c) k
    then Mutation.notify id (settled_status r) (observer k st)
    else observer k st.
Proof. unfold settle. intros ->. by destruct r, k, c. Qed.

Lemma pending_settle id c r st :
  pendingMutations st !! id = Some c ->
  pendingMutations (fst (settle id r st)) = delete id (pendingMutations st)
  /\ nextMutationId (fst (settle id r st)) = nextMutationId st.
Proof. unfold settle. intros ->. by destruct r, c. Qed.

Lemma settle_unknown id r st :
  pendingMutations st !! id = None -> fst (settle id r st) = st.
Proof. unfold settle. by intros ->. Qed.

Lemma notify_currentMutation id s m :
  Mutation.currentMutation (Mutation.notify id s m) = Mutation.currentMutation m.
Proof.
  unfold Mutation.notify. destruct (Mutation.currentMutation m) as [cur|] eqn:Hcur; [|done].
  by destruct (Nat.eqb cur id).
Qed.

(** The observers and the in-flight mutations stay in step. *)
Lemma step_consistent st ev : consistent st -> consistent (step st ev).
Proof.
  intros [Hfresh Hobs]. destruct ev as [m|s|e|c|id r].
  - split; [done|]. intros k. specialize (Hobs k). by destruct k.
  - split; [done|]. intros k. specialize (Hobs k). by destruct k.
  - split; [done|]. intros k. specialize (Hobs k). by destruct k.
  - (* a call *)
    rewrite step_Call.
    assert (Hpend : pendingMutations (mutateAsync c st)
                    = <[nextMutationId st := c]> (pendingMutations st)) by done.
    assert (Hnext : nextMutationId (mutateAsync c st) = S (nextMutationId st)) by done.
    split.
    + intros id. rewrite Hpend, Hnext, lookup_insert_is_Some.
      intros [<-|[_ Hid]]; [lia|]. apply Hfresh in Hid. lia.
    + intros k. specialize (Hobs k). unfold observer_ok in *.
      rewrite Hpend, Hnext, observer_mutateAsync.
      destruct (Kind_eqb (kind c) k) eqn:Hk.
      * apply Kind_eqb_eq in Hk. simpl. split; [lia|]. rewrite lookup_insert_eq.
        split; [done|]. intros c' Hc'. by simplify_eq.
      * destruct (Mutation.currentMutation (observer k st)) as [cur|]; [|done].
        destruct Hobs as (Hlt & Hpending & Hkind).
        rewrite lookup_insert_ne by lia. split; [lia|done].
  - (* a settlement *)
    destruct (pendingMutations st !! id) as [c|] eqn:Hid;
      [|simpl; by rewrite settle_unknown].
    destruct (pending_settle id c r st Hid) as [Hpend Hnext].
    split.
    + intros id'. simpl. rewrite Hpend, Hnext.
      destruct (decide (id = id')) as [<-|Hne].
      * rewrite lookup_delete_eq. by intros [? ?].
      * rewrite lookup_delete_ne by done. apply Hfresh.
    + intros k. pose proof (Hobs k) as Hk. unfold observer_ok in *.
      simpl step. rewrite Hpend, Hnext, (observer_settle k id c r st Hid).
      destruct (Kind_eqb (kind c) k) eqn:Hkind.
      * rewrite notify_currentMutation.
        destruct (Mutation.currentMutation (observer k st)) as [cur|] eqn:Hcur.
        -- destruct Hk as (Hlt & Hpending & Hck). unfold Mutation.notify. rewrite Hcur.
           destruct (Nat.eqb cur id) eqn:Heq.
           ++ apply Nat.eqb_eq in Heq as ->. rewrite lookup_delete_eq.
              split; [done|]. split; [|done].
              unfold Mutation.isPending. simpl.
              split; [by destruct r|by intros [? ?]].
           ++ apply Nat.eqb_neq in Heq. rewrite lookup_delete_ne by done. done.
        -- unfold Mutation.notify. by rewrite Hcur.
      * destruct (Mutation.currentMutation (observer k st)) as [cur|] eqn:Hcur; [|done].
        destruct Hk as (Hlt & Hpending & Hck).
        assert (id <> cur).
        { intros ->. apply Hck in Hid. apply Kind_eqb_eq in Hid. congruence. }
        rewrite lookup_delete_ne by done. done.
Qed.

Lemma initialState_consistent : consistent initialState.
Proof.
  split; [|by intros []]. intros id. simpl. rewrite lookup_empty. by intros [? ?].
Qed.

Lemma run_consistent evs : forall st, consistent st -> consistent (run st evs).
Proof.
  induction evs as [|ev evs IH]; intros st Hst; [done|].
  rewrite run_cons. by apply IH, step_consistent.
Qed.

Section Flag.
(** One of the four observers, and the flag read from it. *)
Variable k : Kind.

(** The observer of kind [k] is attached to the mutation of the most
    recent call of kind [k]. *)
Lemma run_latest_call evs :
  nextMutationId (run initialState evs) = calls k evs
  /\ Mutation.currentMutation (observer k (run initialState evs)) = latest_call k evs.
Proof.
  unfold calls, latest_call.
  induction evs as [|ev evs [IHn IHc]] using rev_ind; [by destruct k|].
  rewrite run_snoc, fold_left_app. simpl fold_left.
  destruct ev as [m|s|e|c|id r]; simpl note_call.
  - split; [done|]. rewrite <- IHc. by destruct k.
  - split; [done|]. rewrite <- IHc. by destruct k.
  - split; [done|]. rewrite <- IHc. by destruct k.
  - rewrite step_Call, observer_mutateAsync, <- IHn, <- IHc. simpl.
    split; [done|]. by destruct (Kind_eqb (kind c) k).
  - simpl step. destruct (pendingMutations (run initialState evs) !! id) as [c|] eqn:Hid.
    + destruct (pending_settle id c r _ Hid) as [_ ->].
      rewrite (observer_settle k id c r _ Hid). split; [done|].
      destruct (Kind_eqb (kind c) k); [|done]. by rewrite notify_currentMutation.
    + by rewrite settle_unknown.
Qed.

(** A flag follows its own observer only. *)
Lemma isPending_other_call c st :
  kind c <> k ->
  Mutation.isPending (observer k (step st (Call c))) = Mutation.isPending (observer k st).
Proof.
  intros Hk. rewrite step_Call, observer_mutateAsync.
  destruct (Kind_eqb (kind c) k) eqn:Heq; [|done]. by apply Kind_eqb_eq in Heq.
Qed.

Lemma isPending_other_settle id c r st :
  pendingMutations st !! id = Some c -> kind c <> k ->
  Mutation.isPending (observer k (step st (Settle id r))) = Mutation.isPending (observer k st).
Proof.
  intros Hid Hk. simpl. rewrite (observer_settle k id c r st Hid).
  destruct (Kind_eqb (kind c) k) eqn:Heq; [|done]. by apply Kind_eqb_eq in Heq.
Qed.

Lemma isPending_latest_call evs :
  Mutation.isPending (observer k (run initialState evs)) = true
  <-> exists id, latest_call k evs = Some id
                 /\ is_Some (pendingMutations (run initialState evs) !! id).
Proof.
  destruct (run_latest_call evs) as [_ Hcur].
  destruct (run_consistent evs _ initialState_consistent) as [_ Hobs].
  specialize (Hobs k). unfold observer_ok in Hobs. rewrite Hcur in Hobs.
  destruct (latest_call k evs) as [id|].
  - destruct Hobs as (_ & Hpending & _). rewrite Hpending.
    split; [eauto|]. by intros (? & [= <-] & ?).
  - rewrite Hobs. split; [done|]. by intros (? & ? & _).
Qed.

Lemma isPending_outstanding evs :
  Mutation.isPending (observer k (run initialState evs)) = true ->
  outstanding k (run initialState evs).
Proof.
  intros Hp. destruct (run_latest_call evs) as [_ Hcur].
  destruct (run_consistent evs _ initialState_consistent) as [_ Hobs].
  specialize (Hobs k). unfold observer_ok in Hobs.
  destruct (Mutation.currentMutation (observer k (run initialState evs))) as [id|];
    [|congruence].
  destruct Hobs as (_ & Hpending & Hkind).
  destruct (proj1 Hpending Hp) as [c Hc].
  exists id, c. eauto.
Qed.
End Flag.

(** C9, as stated, fails: with two kill calls in flight, the later one
    settling turns [isKilling] off while the earlier one is still
    outstanding. *)
Lemma isKilling_off_while_outstanding :
  isKilling overlapping_kills = false
  /\ pendingMutations overlapping_kills !! 0%nat = Some (KillProcess 1 None)
  /\ ~ (forall evs,
          isKilling (run initialState evs) = true
          <-> outstanding KKill (run initialState evs)).
Proof.
  split; [reflexivity|]. split; [reflexivity|].
  intros Hclaim.
  destruct (Hclaim [Call (KillProcess 1 None); Call (KillProcess 2 None);
                    Settle 1 Fulfilled]) as [_ Hback].
  assert (Hout : outstanding KKill overlapping_kills)
    by (exists 0%nat, (KillProcess 1 None); split; reflexivity).
  apply Hback in Hout. discriminate Hout.
Qed.

(** C9, amended. In every session, [isKilling] is true exactly while the
    most recently called [killProcess] request is outstanding, and
    [isKillingAll] exactly while the most recently called
    [killAllProcesses] request is; a flag that is true implies that a
    request of its kind is outstanding. Calling or settling a kill-all
    leaves [isKilling] as it was, and calling or settling a kill leaves
    [isKillingAll] as it was. *)
Theorem in_flight_flags_follow_latest_call evs :
  (isKilling (run initialState evs) = true
   <-> exists id, latest_call KKill evs = Some id
                  /\ is_Some (pendingMutations (run initialState evs) !! id))
  /\ (isKillingAll (run initialState evs) = true
      <-> exists id, latest_call KKillAll evs = Some id
                     /\ is_Some (pendingMutations (run initialState evs) !! id))
  /\ (isKilling (run initialState evs) = true -> outstanding KKill (run initialState evs))
  /\ (isKillingAll (run initialState evs) = true
      -> outstanding KKillAll (run initialState evs))
  /\ (forall force,
        isKilling (step (run initialState evs) (Call (KillAllProcesses force)))
        = isKilling (run initialState evs))
  /\ (forall pid force,
        isKillingAll (step (run initialState evs) (Call (KillProcess pid force)))
        = isKillingAll (run initialState evs))
  /\ (forall id force r,
        pendingMutations (run initialState evs) !! id = Some (KillAllProcesses force) ->
        isKilling (step (run initialState evs) (Settle id r))
        = isKilling (run initialState evs))
  /\ (forall id pid force r,
        pendingMutations (run initialState evs) !! id = Some (KillProcess pid force) ->
        isKillingAll (step (run initialState evs) (Settle id r))
        = isKillingAll (run initialState evs)).
Proof.
  split; [apply (isPending_latest_call KKill)|].
  split; [apply (isPending_latest_call KKillAll)|].
  split; [apply (isPending_outstanding KKill)|].
  split; [apply (isPending_outstanding KKillAll)|].
  split; [intros force; by apply (isPending_other_call KKill)|].
  split; [intros pid force; by apply (isPending_other_call KKillAll)|].
  split.
  - intros id force r Hid. by apply (isPending_other_settle KKill id _ r _ Hid).
  - intros id pid force r Hid. by apply (isPending_other_settle KKillAll id _ r _ Hid).
Qed.

(** A session with a kill and a kill-all in flight: each flag is on, and
    settling the kill-all turns only its own flag off. *)
Example in_flight_flags_run :
  (fun st => (isKilling st, isKillingAll st))
    <$> [run initialState [Call (KillProcess 7 None)];
         run initialState [Call (KillProcess 7 None); Call (KillAllProcesses None)];
         run initialState [Call (KillProcess 7 None); Call (KillAllProcesses None);
                           Settle 1 (Rejected "down")];
         run initialState [Call (KillProcess 7 None); Call (KillAllProcesses None);
                           Settle 1 (Rejected "down"); Settle 0 Fulfilled]]
  = [(true, false); (true, true); (true, false); (false, false)].
Proof. reflexivity. Qed.

(** ** Further properties of the hook *)

(** X1. In every session whose push messages and poll results have the
    declared shape, whatever commands are called and however they settle,
    [processes] is an array and [processCount] evaluates without
    throwing; it is the sum of the [total_count] fields whenever these
    stay below 2^53 in magnitude. *)
Theorem typed_session_processCount evs :
  forallb typed_event evs = true ->
  exists (v : Snapshot) (n : JsDouble),
    processes (run initialState evs) = JsArray v
    /\ processCount (run initialState evs) = Normal n
    /\ (safe_counts v -> n = Finite (sum_total_count v)).
Proof.
  intros Hevs. destruct (processes_typed _ (session_typed evs Hevs)) as [v Hv].
  exists v. eexists. split; [done|]. split; [by apply processCount_reduce|].
  intros Hsafe. pose proof (processCount_safe _ _ Hv Hsafe) as Hsum.
  rewrite (processCount_reduce _ _ Hv) in Hsum. by injection Hsum.
Qed.

Lemma typed_session_processCount_witness :
  processCount (run initialState
                  [Call (KillAllProcesses None); PollRejected "down";
                   arrival_event (Push [demo]); Settle 0 Fulfilled; PollFulfilled [other]])
  = Normal 0
  /\ exists n, processCount pushed_huge = Normal n.
Proof.
  split; [reflexivity|].
  destruct (typed_session_processCount [arrival_event (Push [huge; one_more])] eq_refl)
    as (v & n & _ & Hn & _).
  exists n. exact Hn.
Defined.

Lemma step_keeps_push_slot st ev s :
  leaves_push_slot ev = true ->
  wsProcesses st = JsArray s -> no_killAll_pending st ->
  wsProcesses (step st ev) = JsArray s /\ no_killAll_pending (step st ev).
Proof.
  intros Hev Hws Hnone. destruct ev as [m|p|e|c|id r]; try done.
  - rewrite step_Call. split; [by destruct (mutateAsync_store c st) as [-> _]|].
    intros id c'. replace (pendingMutations (mutateAsync c st))
      with (<[nextMutationId st := c]> (pendingMutations st)) by done.
    rewrite lookup_insert_Some. intros [[_ <-]|[_ Hc']]; [by destruct c|by eapply Hnone].
  - rewrite step_Settle.
    destruct (pendingMutations st !! id) as [c|] eqn:Hid; [|by rewrite settle_unknown].
    destruct (pending_settle id c r st Hid) as [Hpend _]. split.
    + pose proof (Hnone id c Hid) as Hc. unfold settle. rewrite Hid.
      by destruct r, c.
    + intros id' c'. rewrite Hpend, lookup_delete_Some. intros [_ Hc']. by eapply Hnone.
Qed.

(** X2. While a pushed snapshot is held and no kill-all is in flight or
    called, nothing but a push message changes the view: calls of kill,
    pause and resume, their settlements (which invalidate the query), and
    every poll result, fulfilled or rejected, leave [processes] at the
    pushed snapshot. *)
Theorem held_push_outlives_refetch evs : forall st s,
  wsProcesses st = JsArray s ->
  no_killAll_pending st ->
  forallb leaves_push_slot evs = true ->
  wsProcesses (run st evs) = JsArray s
  /\ processes (run st evs) = JsArray s.
Proof.
  induction evs as [|ev evs IH]; intros st s Hws Hnone Hevs.
  - split; [done|]. by apply processes_ws_array.
  - simpl in Hevs. apply andb_prop in Hevs as [Hev Hevs]. rewrite run_cons.
    destruct (step_keeps_push_slot st ev s Hev Hws Hnone) as [Hws' Hnone'].
    by apply IH.
Qed.

Lemma held_push_outlives_refetch_witness :
  Query.invalidations
    (query (run pushed_demo
              [Call (KillProcess 1 None); Settle 0 Fulfilled; PollFulfilled []])) = 1%nat
  /\ processes (run pushed_demo
                  [Call (KillProcess 1 None); Settle 0 Fulfilled; PollFulfilled []])
     = JsArray [demo].
Proof.
  split; [reflexivity|].
  apply (held_push_outlives_refetch
           [Call (KillProcess 1 None); Settle 0 Fulfilled; PollFulfilled []]
           pushed_demo [demo]).
  - reflexivity.
  - intros id c. vm_compute. discriminate.
  - reflexivity.
Defined.

Lemma size_delete_pending (m : gmap nat Command) id c :
  m !! id = Some c -> size m = S (size (delete id m)).
Proof.
  intros Hid. rewrite <- (insert_id m id c Hid) at 1.
  rewrite <- insert_delete_eq. apply map_size_insert_None, lookup_delete_eq.
Qed.

(** One event of a session in which settlements belong to requests in
    flight: what it adds to the invalidations and to the requests in
    flight. *)
Lemma step_accounting st ev :
  consistent st ->
  live st [ev] = true ->
  (Query.invalidations (query (step st ev))
   = Query.invalidations (query st) + count is_fulfilled [ev])%nat
  /\ (size (pendingMutations (step st ev)) + count is_fulfilled [ev] + count is_rejected [ev]
      = size (pendingMutations st) + count is_call [ev])%nat.
Proof.
  intros [Hfresh _] Hlive. destruct ev as [m|p|e|c|id r].
  - unfold count. simpl. lia.
  - unfold count. simpl. lia.
  - unfold count. simpl. lia.
  - rewrite step_Call.
    replace (pendingMutations (mutateAsync c st))
      with (<[nextMutationId st := c]> (pendingMutations st)) by done.
    destruct (mutateAsync_store c st) as [_ ->].
    unfold count. simpl. rewrite map_size_insert_None; [lia|].
    destruct (pendingMutations st !! nextMutationId st) eqn:Hnext; [|done].
    assert (nextMutationId st < nextMutationId st)%nat by (apply Hfresh; eauto). lia.
  - simpl in Hlive. rewrite andb_true_r in Hlive.
    apply bool_decide_eq_true in Hlive as [c Hid].
    rewrite step_Settle. destruct (pending_settle id c r st Hid) as [-> _].
    rewrite (size_delete_pending _ id c Hid). destruct r as [|e].
    + rewrite (settle_fulfilled_query id c st Hid). unfold count. simpl. lia.
    + destruct (settle_rejected_store id e st) as [_ ->]. unfold count. simpl. lia.
Qed.

Lemma live_cons st ev evs :
  live st (ev :: evs) = live st [ev] && live (step st ev) evs.
Proof. simpl. by rewrite andb_true_r. Qed.

Lemma count_cons f ev evs : count f (ev :: evs) = (count f [ev] + count f evs)%nat.
Proof. unfold count. simpl. by destruct (f ev). Qed.

Lemma run_accounting evs : forall st,
  consistent st ->
  live st evs = true ->
  (Query.invalidations (query (run st evs))
   = Query.invalidations (query st) + count is_fulfilled evs)%nat
  /\ (size (pendingMutations (run st evs)) + count is_fulfilled evs + count is_rejected evs
      = size (pendingMutations st) + count is_call evs)%nat.
Proof.
  induction evs as [|ev evs IH]; intros st Hst Hlive.
  - unfold count. simpl. lia.
  - rewrite live_cons in Hlive. apply andb_prop in Hlive as [Hev Hevs].
    destruct (step_accounting st ev Hst Hev) as [Hinv Hsize].
    destruct (IH (step st ev) (step_consistent st ev Hst) Hevs) as [IHinv IHsize].
    rewrite run_cons, !(count_cons _ ev evs). lia.
Qed.

(** X3. In a session where every settlement belongs to a request in
    flight, the number of forced refetches equals the number of commands
    reported successful, and every call made is either still in flight or
    has settled exactly once. *)
Theorem requests_accounted evs :
  live initialState evs = true ->
  Query.invalidations (query (run initialState evs)) = count is_fulfilled evs
  /\ count is_call evs
     = (size (pendingMutations (run initialState evs))
        + count is_fulfilled evs + count is_rejected evs)%nat.
Proof.
  intros Hlive.
  destruct (run_accounting evs initialState initialState_consistent Hlive) as [Hinv Hsize].
  simpl in Hinv, Hsize. rewrite map_size_empty in Hsize. split; [done|lia].
Qed.

Lemma requests_accounted_witness :
  Query.invalidations (query (run initialState kill_then_poll)) = 1%nat
  /\ size (pendingMutations (run initialState kill_then_poll)) = 0%nat.
Proof.
  destruct (requests_accounted kill_then_poll ltac:(reflexivity)) as [Hinv Hsize].
  split; [exact Hinv|].
  change (count is_call kill_then_poll) with 2%nat in Hsize.
  change (count is_fulfilled kill_then_poll) with 1%nat in Hsize.
  change (count is_rejected kill_then_poll) with 1%nat in Hsize.
  lia.
Defined.

(** ** Uptime and icons *)

Lemma append_nonempty (s1 s2 : string) : s2 <> "" -> s1 +:+ s2 <> "".
Proof. intros Hs2. destruct s1; [done|]. simpl. discriminate. Qed.

(** X4. For a start time in the past, [formatUptime] shows the elapsed
    whole seconds [diff] split without loss below an hour (["<diff>s"], or
    ["<m>m <s>s"] with [diff = 60 m + s] and [s < 60]) and rounded down to
    the minute from one hour on (["<h>h <m>m"] with [m < 60] and
    [3600 h + 60 m <= diff < 3600 h + 60 m + 60]). *)
Theorem formatUptime_parts (now start : Z) :
  0 <= (now - start) / 1000 ->
  ((now - start) / 1000 < 60
   /\ formatUptime (Num now) (Num start) = pretty ((now - start) / 1000) +:+ "s")
  \/ (60 <= (now - start) / 1000 < 3600
      /\ exists m s,
           formatUptime (Num now) (Num start) = pretty m +:+ "m " +:+ pretty s +:+ "s"
           /\ (now - start) / 1000 = 60 * m + s
           /\ 1 <= m < 60 /\ 0 <= s < 60)
  \/ (3600 <= (now - start) / 1000
      /\ exists h m,
           formatUptime (Num now) (Num start) = pretty h +:+ "h " +:+ pretty m +:+ "m"
           /\ 3600 * h + 60 * m <= (now - start) / 1000 < 3600 * h + 60 * m + 60
           /\ 1 <= h /\ 0 <= m < 60).
Proof.
  intros Hpos. unfold formatUptime. simpl.
  set (diff := (now - start) / 1000) in *.
  destruct (Z.ltb_spec diff 60) as [Hs|Hs]; [left; done|].
  destruct (Z.ltb_spec diff 3600) as [Hm|Hm]; right; [left|right].
  - split; [lia|]. exists (diff / 60), (Z.rem diff 60). split; [done|].
    rewrite Z.rem_mod_nonneg by lia.
    pose proof (Z.div_mod diff 60 ltac:(lia)).
    pose proof (Z.mod_pos_bound diff 60 ltac:(lia)).
    assert (1 <= diff / 60) by (apply Z.div_le_lower_bound; lia).
    assert (diff / 60 < 60) by (apply Z.div_lt_upper_bound; lia).
    lia.
  - split; [lia|]. exists (diff / 3600), (Z.rem diff 3600 / 60). split; [done|].
    rewrite Z.rem_mod_nonneg by lia.
    pose proof (Z.div_mod diff 3600 ltac:(lia)).
    pose proof (Z.mod_pos_bound diff 3600 ltac:(lia)).
    pose proof (Z.div_mod (diff mod 3600) 60 ltac:(lia)).
    pose proof (Z.mod_pos_bound (diff mod 3600) 60 ltac:(lia)).
    assert (1 <= diff / 3600) by (apply Z.div_le_lower_bound; lia).
    assert (0 <= diff mod 3600 / 60) by (apply Z.div_pos; lia).
    assert (diff mod 3600 / 60 < 60) by (apply Z.div_lt_upper_bound; lia).
    lia.
Qed.

Lemma formatUptime_parts_witness :
  formatUptime (Num 100000000) (Num 55000) = "27h 45m".
Proof.
  destruct (formatUptime_parts 100000000 55000 ltac:(vm_compute; discriminate))
    as [[Hlt _]|[[[_ Hlt] _]|[_ (h & m & -> & Hdiff & Hh & Hm)]]].
  - vm_compute in Hlt. discriminate Hlt.
  - vm_compute in Hlt. discriminate Hlt.
  - change ((100000000 - 55000) / 1000) with 99945 in Hdiff.
    assert (h = 27) as -> by lia. assert (m = 45) as -> by lia. reflexivity.
Defined.

(** X5. [formatUptime] at the edges. An unparsable start date is not
    caught: it prints as ["NaNh NaNm"]. A start time in the future prints
    as a negative number of seconds, however far ahead it is. The empty
    string of the [catch] branch is never returned. *)
Theorem formatUptime_edges :
  (forall now, formatUptime now NaN = "NaNh NaNm")
  /\ (forall now start : Z,
        (now - start) / 1000 < 0 ->
        exists digits,
          formatUptime (Num now) (Num start) = "-" +:+ digits +:+ "s"
          /\ pretty ((now - start) / 1000) = "-" +:+ digits)
  /\ (forall now start, formatUptime now start <> "").
Proof.
  split; [by intros []|]. split.
  - intros now start Hneg. unfold formatUptime. simpl.
    destruct (Z.ltb_spec ((now - start) / 1000) 60) as [_|?]; [|lia].
    destruct ((now - start) / 1000) as [|p|p] eqn:Hdiff; [lia|lia|].
    exists (pretty (Npos p)). by split.
  - intros now start. unfold formatUptime.
    repeat match goal with |- context [if ?b then _ else _] => destruct b end;
      repeat (apply append_nonempty; try discriminate).
Qed.

Lemma prefix_append (sub post : string) : String.prefix sub (sub +:+ post) = true.
Proof.
  induction sub as [|a sub IH]; simpl; [by destruct post|].
  destruct (Ascii.ascii_dec a a); [done|congruence].
Qed.

Lemma includes_prefix (s sub : string) :
  String.prefix sub s = true -> includes s sub = true.
Proof. intros Hpre. destruct s; cbn [includes]; by rewrite Hpre. Qed.

Lemma includes_append (pre sub post : string) :
  includes (pre +:+ sub +:+ post) sub = true.
Proof.
  induction pre as [|a pre IH].
  - change ("" +:+ sub +:+ post) with (sub +:+ post).
    apply includes_prefix, prefix_append.
  - change (String a pre +:+ sub +:+ post) with (String a (pre +:+ sub +:+ post)).
    cbn [includes]. rewrite IH. apply orb_true_r.
Qed.

(** X6. Any name that contains "browser" or "chrome" gets the globe icon,
    whatever else it contains ("agent" and "mcp" included), and the agent
    icon is given to the name "agent" only. *)
Theorem getProcessIcon_by_name :
  (forall pre post,
     getProcessIcon (pre +:+ "browser" +:+ post) = (Globe, "text-blue-400")
     /\ getProcessIcon (pre +:+ "chrome" +:+ post) = (Globe, "text-blue-400"))
  /\ (forall name, fst (getProcessIcon name) = Cpu <-> name = "agent").
Proof.
  split.
  - intros pre post. unfold getProcessIcon. split.
    + pose proof (includes_append pre "browser" post) as Hinc.
      destruct (String.eqb_spec (pre +:+ "browser" +:+ post) "agent") as [Heq|_].
      * rewrite Heq in Hinc. vm_compute in Hinc. discriminate Hinc.
      * by rewrite Hinc.
    + pose proof (includes_append pre "chrome" post) as Hinc.
      destruct (String.eqb_spec (pre +:+ "chrome" +:+ post) "agent") as [Heq|_].
      * rewrite Heq in Hinc. vm_compute in Hinc. discriminate Hinc.
      * rewrite Hinc. by rewrite orb_true_r.
  - intros name. unfold getProcessIcon.
    destruct (String.eqb_spec name "agent") as [->|Hne]; [done|].
    split; [|done].
    by destruct (includes name "browser" || includes name "chrome"),
                (includes name "mcp").
Qed.

(** ** Rows and groups *)

(** Induction over a process tree, with the property known of every
    child. *)
Lemma ProcessInfo_forest_ind (P : ProcessInfo -> Prop) :
  (forall pid_ name_ status_ started cs,
     Forall P cs -> P (mkProcessInfo pid_ name_ status_ started cs)) ->
  forall p, P p.
Proof.
  intros Hnode. fix IH 1. intros [pid_ name_ status_ started cs].
  apply Hnode. induction cs as [|c cs IHcs]; constructor; [apply IH|apply IHcs].
Qed.

Lemma length_preorder p : forall depth, length (preorder depth p) = node_count p.
Proof.
  induction p as [pid_ name_ status_ started cs IH] using ProcessInfo_forest_ind.
  intros depth. simpl. f_equal.
  induction IH as [|c cs Hc _ IHcs]; simpl; [done|].
  by rewrite length_app, Hc, IHcs.
Qed.

(** X7. With every row expanded, as on first render, a tree is shown as
    one row per process, in pre-order, each indented by 16 pixels per
    level of depth after a padding of 8; so its number of rows is its
    number of nodes. *)
Theorem ProcessRow_allExpanded p : forall path indent,
  rowLayout <$> ProcessRow allExpanded path indent p = depthLayout <$> preorder indent p
  /\ length (ProcessRow allExpanded path indent p) = node_count p.
Proof.
  assert (Hlayout : forall path indent,
    rowLayout <$> ProcessRow allExpanded path indent p = depthLayout <$> preorder indent p).
  { induction p as [pid_ name_ status_ started cs IH] using ProcessInfo_forest_ind.
    intros path indent. cbn [ProcessRow preorder]. rewrite !fmap_cons. f_equal.
    replace (if (0 <? length cs)%nat && allExpanded (path ++ [pid_])
             then flat_map (ProcessRow allExpanded (path ++ [pid_]) (S indent)) cs
             else [])
      with (flat_map (ProcessRow allExpanded (path ++ [pid_]) (S indent)) cs)
      by (by destruct cs).
    induction IH as [|c cs Hc _ IHcs]; [done|].
    cbn [flat_map]. by rewrite !fmap_app, Hc, IHcs. }
  intros path indent. split; [done|].
  rewrite <- (length_preorder p indent), <- (length_fmap rowLayout), Hlayout.
  by rewrite length_fmap.
Qed.

(** X8. Whatever rows are collapsed, the rows shown for a tree are a
    subsequence of its pre-order, so never more than its nodes and never a
    process twice that the tree holds once; a collapsed row is shown alone,
    with none of its descendants. *)
Theorem ProcessRow_rows_sublist expanded p : forall path indent,
  sublist (rowLayout <$> ProcessRow expanded path indent p) (depthLayout <$> preorder indent p)
  /\ (length (ProcessRow expanded path indent p) <= node_count p)%nat
  /\ (expanded (path ++ [pid p]) = false -> length (ProcessRow expanded path indent p) = 1%nat).
Proof.
  assert (Hsub : forall path indent,
    sublist (rowLayout <$> ProcessRow expanded path indent p)
            (depthLayout <$> preorder indent p)).
  { induction p as [pid_ name_ status_ started cs IH] using ProcessInfo_forest_ind.
    intros path indent. cbn [ProcessRow preorder]. rewrite !fmap_cons.
    apply sublist_skip.
    destruct ((0 <? length cs)%nat && expanded (path ++ [pid_])); [|apply sublist_nil_l].
    induction IH as [|c cs Hc _ IHcs]; [done|].
    cbn [flat_map]. rewrite !fmap_app. by apply sublist_app. }
  intros path indent. split; [done|]. split.
  - rewrite <- (length_preorder p indent), <- (length_fmap rowLayout),
      <- (length_fmap depthLayout (preorder indent p)).
    apply sublist_length, Hsub.
  - destruct p as [pid_ name_ status_ started cs]. cbn [ProcessRow pid]. intros ->.
    by rewrite andb_false_r.
Qed.

Lemma ProcessRow_rows_sublist_witness :
  ProcessRow (fun _ => false) [] 0 demo_root
  = [{| row_pid := 1; row_paddingLeft := 8; row_chevron := Some false;
        row_actions := [PauseButton 1; KillButton 1] |}].
Proof.
  destruct (ProcessRow_rows_sublist (fun _ => false) demo_root [] 0%nat)
    as (_ & _ & Hone).
  pose proof (Hone eq_refl) as Hlen.
  destruct (ProcessRow (fun _ => false) [] 0 demo_root) as [|r [|r' rows]] eqn:Hrows;
    [discriminate Hlen| |discriminate Hlen].
  vm_compute in Hrows. rewrite <- Hrows. reflexivity.
Defined.

(** X9. In every row shown, whatever is collapsed, each button acts on
    that row's own process, a Kill button is there, and Pause and Resume
    are never offered together. *)
Theorem ProcessRow_actions expanded p : forall path indent,
  Forall (fun r =>
            KillButton (row_pid r) ∈ row_actions r
            /\ Forall (fun act => actionPid act = row_pid r) (row_actions r)
            /\ ~ (PauseButton (row_pid r) ∈ row_actions r
                  /\ ResumeButton (row_pid r) ∈ row_actions r))
         (ProcessRow expanded path indent p).
Proof.
  induction p as [pid_ name_ status_ started cs IH] using ProcessInfo_forest_ind.
  intros path indent. cbn [ProcessRow]. constructor.
  - unfold rowActions. cbn [row_pid row_actions status pid].
    destruct status_;
      (split; [repeat constructor|]); (split; [by repeat constructor|]);
      rewrite !elem_of_cons, !elem_of_nil; intros [Hp Hr];
      repeat match goal with
             | H : _ \/ _ |- _ => destruct H as [H|H]
             | H : False |- _ => destruct H
             | H : _ = _ |- _ => discriminate H
             end.
  - destruct ((0 <? length cs)%nat && expanded (path ++ [pid_])); [|constructor].
    induction IH as [|c cs Hc _ IHcs]; [constructor|].
    cbn [flat_map]. apply Forall_app. split; [apply Hc|apply IHcs].
Qed.

(** X10. For a project whose [total_count] is the number of its nodes,
    the badge of its group equals the number of rows shown when group and
    rows are expanded, and is never below the number of rows shown
    otherwise; a project without processes shows "No processes". *)
Theorem ProjectGroup_badge project :
  ProjectProcesses.total_count project
  = Z.of_nat (forest_count (ProjectProcesses.processes project)) ->
  group_badge (ProjectGroup true allExpanded project)
  = Z.of_nat (length (group_rows (ProjectGroup true allExpanded project)))
  /\ (forall groupExpanded expanded,
        Z.of_nat (length (group_rows (ProjectGroup groupExpanded expanded project)))
        <= group_badge (ProjectGroup groupExpanded expanded project))
  /\ (ProjectProcesses.processes project = [] ->
      group_body (ProjectGroup true allExpanded project) = NoProcesses).
Proof.
  intros Hwf.
  assert (Hrows : forall expanded ps,
    (length (flat_map (ProcessRow expanded [] 0) ps) <= forest_count ps)%nat
    /\ length (flat_map (ProcessRow allExpanded [] 0) ps) = forest_count ps).
  { intros expanded ps. induction ps as [|p ps [IHle IHeq]]; [done|].
    cbn [flat_map forest_count foldr]. rewrite !length_app.
    destruct (ProcessRow_rows_sublist expanded p [] 0%nat) as (_ & Hle & _).
    destruct (ProcessRow_allExpanded p [] 0%nat) as [_ Heq].
    fold (forest_count ps). split; lia. }
  split; [|split].
  - unfold ProjectGroup, group_rows. cbn [group_badge group_body]. rewrite Hwf.
    destruct (ProjectProcesses.processes project) as [|p ps] eqn:Hps; [done|].
    cbn [length Nat.ltb Nat.leb]. f_equal. symmetry. apply Hrows. exact allExpanded.
  - intros groupExpanded expanded. unfold ProjectGroup, group_rows.
    cbn [group_badge group_body]. rewrite Hwf.
    destruct groupExpanded; [|simpl; lia].
    destruct (0 <? length (ProjectProcesses.processes project))%nat; [|simpl; lia].
    apply inj_le, Hrows.
  - intros Hnil. unfold ProjectGroup. cbn [group_body]. by rewrite Hnil.
Qed.

Lemma ProjectGroup_badge_witness :
  group_badge (ProjectGroup true allExpanded demo) = 2
  /\ length (group_rows (ProjectGroup true allExpanded demo)) = 2%nat.
Proof.
  destruct (ProjectGroup_badge demo eq_refl) as (Hbadge & _ & _).
  split; [reflexivity|]. apply Nat2Z.inj. rewrite <- Hbadge. reflexivity.
Defined.

(** ** The panel over the hook *)

Lemma app_run_snoc a evs ev : app_run a (evs ++ [ev]) = app_step (app_run a evs) ev.
Proof. unfold app_run. by rewrite fold_left_app. Qed.

(** A typed hook state renders. *)
Lemma panelProps_typed a :
  Typed (app_hook a) ->
  exists v n,
    processes (app_hook a) = JsArray v
    /\ panelProps a
       = Some {| props_processes := v;
                 props_processCount := n;
                 props_isOpen := app_isOpen a;
                 props_isKillingAll := Some (isKillingAll (app_hook a)) |}.
Proof.
  intros Hst. destruct (processes_typed _ Hst) as [v Hv]. exists v. eexists.
  split; [done|]. unfold panelProps. by rewrite (processCount_reduce _ _ Hv), Hv.
Qed.

(** The modal is on screen exactly when its cell is set and the hook
    renders. *)
Lemma render_modal a n :
  render a ≫= view_modal = Some n -> app_showKillAllConfirm a = true.
Proof.
  unfold render. destruct (panelProps a) as [props|]; [|done]. simpl.
  by destruct (app_showKillAllConfirm a).
Qed.

(** The Kill All button is enabled only when its observer is idle. *)
Lemma render_killAll_enabled a button :
  render a ≫= view_killAll = Some button ->
  button_disabled button = false ->
  isKillingAll (app_hook a) = false.
Proof.
  unfold render, panelProps.
  destruct (processes (app_hook a)) as [| |v| |]; try done.
  destruct (processCount (app_hook a)) as [n|]; [|done]. simpl.
  destruct (app_isOpen a && js_gt0 n); [|done]. by intros [= <-].
Qed.

Lemma app_ok_idle a :
  app_ok a -> isKillingAll (app_hook a) = false -> no_killAll_pending (app_hook a).
Proof.
  intros ([_ Hobs] & Hlatest & _) Hidle id c Hid Hkind.
  destruct (Hlatest id c Hid Hkind) as [Hcur _].
  specialize (Hobs KKillAll). unfold observer_ok in Hobs. simpl in Hobs.
  rewrite Hcur in Hobs. destruct Hobs as (_ & Hpending & _).
  unfold isKillingAll in Hidle. rewrite Hidle in Hpending.
  assert (false = true) by (apply Hpending; eauto). done.
Qed.

(** A call from the panel keeps [app_ok]: a kill-all only with nothing of
    its kind in flight, any other command always. *)
Lemma app_ok_call a c show :
  app_ok a ->
  (kind c = KKillAll -> c = KillAllProcesses (Some true) /\ no_killAll_pending (app_hook a)) ->
  (show = true -> kind c <> KKillAll /\ app_showKillAllConfirm a = true) ->
  app_ok {| app_hook := mutateAsync c (app_hook a); app_isOpen := app_isOpen a;
            app_showKillAllConfirm := show |}.
Proof.
  intros (Hcons & Hlatest & Hmodal) Hall Hshow. split; [|split]; cbn [app_hook app_showKillAllConfirm].
  - rewrite <- step_Call. by apply step_consistent.
  - intros id c'.
    replace (pendingMutations (mutateAsync c (app_hook a)))
      with (<[nextMutationId (app_hook a) := c]> (pendingMutations (app_hook a))) by done.
    rewrite lookup_insert_Some. intros [[<- <-]|[Hne Hid]] Hkind.
    + destruct (Hall Hkind) as [-> _]. done.
    + destruct (Kind_eqb (kind c) KKillAll) eqn:Heq.
      * apply Kind_eqb_eq in Heq. destruct (Hall Heq) as [_ Hnone].
        by destruct (Hnone id c' Hid).
      * destruct (Hlatest id c' Hid Hkind) as [Hcur ->]. split; [|done].
        change (killAllMutation (mutateAsync c (app_hook a)))
          with (observer KKillAll (mutateAsync c (app_hook a))).
        by rewrite observer_mutateAsync, Heq.
  - intros Hs. destruct (Hshow Hs) as [Hc Hopen]. intros id c'.
    replace (pendingMutations (mutateAsync c (app_hook a)))
      with (<[nextMutationId (app_hook a) := c]> (pendingMutations (app_hook a))) by done.
    rewrite lookup_insert_Some. intros [[_ <-]|[_ Hid]]; [done|].
    by eapply Hmodal.
Qed.

Lemma app_ok_backend a ev :
  is_call ev = false ->
  app_ok a -> app_ok (withHook (step (app_hook a) ev) a).
Proof.
  intros Hev (Hcons & Hlatest & Hmodal).
  split; [by apply step_consistent|]. cbn [app_hook withHook app_showKillAllConfirm].
  destruct ev as [m|s|e|c|id r]; try done.
  rewrite step_Settle.
  destruct (pendingMutations (app_hook a) !! id) as [c|] eqn:Hid;
    [|by rewrite settle_unknown].
  destruct (pending_settle id c r _ Hid) as [Hpend _]. rewrite Hpend. split.
  - intros id' c'. rewrite lookup_delete_Some. intros [_ Hid'] Hkind.
    destruct (Hlatest id' c' Hid' Hkind) as [Hcur ->]. split; [|done].
    change (killAllMutation (settle id r (app_hook a)).1)
      with (observer KKillAll (settle id r (app_hook a)).1).
    rewrite (observer_settle KKillAll id c r _ Hid).
    destruct (Kind_eqb (kind c) KKillAll); [|done].
    by rewrite notify_currentMutation.
  - intros Hs id' c'. rewrite Hpend, lookup_delete_Some. intros [_ Hid'].
    by eapply Hmodal.
Qed.

Lemma app_step_ok a ev : app_ok a -> app_ok (app_step a ev).
Proof.
  intros Hok. destruct ev as [m|s|e|id r| | | | |act]; cbn [app_step].
  - by apply app_ok_backend.
  - by apply app_ok_backend.
  - by apply app_ok_backend.
  - by apply app_ok_backend.
  - done.
  - destruct (render a ≫= view_killAll) as [button|] eqn:Hbutton; [|done].
    destruct (button_disabled button) eqn:Hdis; [done|].
    pose proof Hok as (Hcons & Hlatest & Hmodal). split; [done|]. split; [done|].
    intros _. apply (app_ok_idle a); [done|]. by eapply render_killAll_enabled.
  - destruct (render a ≫= view_modal); [|done].
    destruct Hok as (Hcons & Hlatest & Hmodal). by split.
  - destruct (render a ≫= view_modal) as [n|] eqn:Hmodal; [|done].
    apply render_modal in Hmodal. unfold handleKillAll, killAllProcesses, withHook.
    cbn [app_hook app_isOpen setShowKillAllConfirm].
    apply app_ok_call; [done| |done].
    intros _. split; [done|]. destruct Hok as (_ & _ & Hnone). by apply Hnone.
  - unfold withHook. rewrite step_Call. apply app_ok_call; [done| |].
    + by destruct act.
    + intros Hs. split; [by destruct act|done].
Qed.

Lemma initialApp_ok : app_ok initialApp.
Proof.
  split; [apply initialState_consistent|]. split; [|done].
  intros id c. simpl. by rewrite lookup_empty.
Qed.

Lemma app_run_ok evs : app_ok (app_run initialApp evs).
Proof.
  induction evs as [|ev evs IH] using rev_ind; [apply initialApp_ok|].
  rewrite app_run_snoc. by apply app_step_ok.
Qed.

(** X11. Over the panel, kill-all requests never overlap: in every
    session of backend events and clicks, at most one kill-all is in
    flight, it was called with [force = true], [isKillingAll] is true
    exactly while one is in flight, and none is in flight while the
    confirmation modal is open. *)
Theorem panel_killAll_never_overlaps evs :
  (forall id1 id2 force1 force2,
     pendingMutations (app_hook (app_run initialApp evs)) !! id1
     = Some (KillAllProcesses force1) ->
     pendingMutations (app_hook (app_run initialApp evs)) !! id2
     = Some (KillAllProcesses force2) ->
     id1 = id2)
  /\ (forall id force,
        pendingMutations (app_hook (app_run initialApp evs)) !! id
        = Some (KillAllProcesses force) ->
        force = Some true)
  /\ (isKillingAll (app_hook (app_run initialApp evs)) = true
      <-> outstanding KKillAll (app_hook (app_run initialApp evs)))
  /\ (app_showKillAllConfirm (app_run initialApp evs) = true ->
      ~ outstanding KKillAll (app_hook (app_run initialApp evs))).
Proof.
  pose proof (app_run_ok evs) as Hok. set (a := app_run initialApp evs) in *.
  destruct Hok as ([Hfresh Hobs] & Hlatest & Hmodal) eqn:Heq. clear Heq.
  split; [|split; [|split]].
  - intros id1 id2 f1 f2 H1 H2.
    destruct (Hlatest id1 _ H1 eq_refl) as [Hc1 _].
    destruct (Hlatest id2 _ H2 eq_refl) as [Hc2 _]. congruence.
  - intros id force Hid. destruct (Hlatest id _ Hid eq_refl) as [_ Hc]. congruence.
  - specialize (Hobs KKillAll). unfold observer_ok in Hobs. simpl in Hobs.
    unfold isKillingAll. split.
    + intros Hp.
      destruct (Mutation.currentMutation (killAllMutation (app_hook a))) as [cur|];
        [|congruence].
      destruct Hobs as (_ & Hpending & Hkind).
      destruct (proj1 Hpending Hp) as [c Hc]. exists cur, c. eauto.
    + intros (id & c & Hid & Hkind). destruct (Hlatest id c Hid Hkind) as [Hcur _].
      rewrite Hcur in Hobs. destruct Hobs as (_ & Hpending & _).
      apply Hpending. eauto.
  - intros Hshow (id & c & Hid & Hkind). by destruct (Hmodal Hshow id c Hid).
Qed.

(** A session in which the user confirms a kill-all and clicks again. *)
Example panel_killAll_run :
  (fun a => (app_showKillAllConfirm a, isKillingAll (app_hook a),
             size (pendingMutations (app_hook a))))
    <$> [app_confirming;
         app_step app_confirming ClickConfirm;
         app_run app_confirming [ClickConfirm; ClickKillAll; ClickConfirm];
         app_run app_confirming [ClickConfirm; Settled 0 (Rejected "down"); ClickKillAll]]
  = [(true, false, 0%nat); (false, true, 1%nat); (false, true, 1%nat); (true, false, 0%nat)].
Proof. reflexivity. Qed.

(** X12. Once the confirmation modal is open it depends neither on the
    panel being open nor on any process being listed: only its own two
    buttons close it, and confirming calls [killAllProcesses(true)] and
    closes it, whatever the view shows by then. *)
Theorem confirm_ignores_panel_state a :
  Typed (app_hook a) ->
  app_showKillAllConfirm a = true ->
  (forall ev, closes_modal ev = false -> app_showKillAllConfirm (app_step a ev) = true)
  /\ app_step a ClickConfirm = handleKillAll a
  /\ app_showKillAllConfirm (app_step a ClickConfirm) = false
  /\ isKillingAll (app_hook (app_step a ClickConfirm)) = true
  /\ pendingMutations (app_hook (app_step a ClickConfirm)) !! nextMutationId (app_hook a)
     = Some (KillAllProcesses (Some true)).
Proof.
  intros Hst Hshow. destruct (panelProps_typed a Hst) as (v & n & _ & Hprops).
  assert (Hmodal : render a ≫= view_modal = Some n).
  { unfold render. rewrite Hprops. simpl. by rewrite Hshow. }
  split.
  - intros ev Hev. destruct ev as [m|s|e|id r| | | | |act]; try done.
    cbn [app_step]. destruct (render a ≫= view_killAll) as [button|]; [|done].
    by destruct (button_disabled button).
  - cbn [app_step]. rewrite Hmodal. split; [done|]. split; [done|]. split; [done|].
    apply mutateAsync_pending.
Qed.

Lemma confirm_ignores_panel_state_witness :
  render (app_run app_confirming [Arrives {| WSProcessUpdateMessage.processes := JsArray [] |};
                                  ClickHeader])
  ≫= view_killAll = None
  /\ pendingMutations
       (app_hook (app_run app_confirming
                    [Arrives {| WSProcessUpdateMessage.processes := JsArray [] |};
                     ClickHeader; ClickConfirm]))
     !! 0%nat = Some (KillAllProcesses (Some true)).
Proof.
  split; [reflexivity|].
  destruct (confirm_ignores_panel_state
              (app_run app_confirming
                 [Arrives {| WSProcessUpdateMessage.processes := JsArray [] |}; ClickHeader])
              ltac:(split; reflexivity) ltac:(reflexivity))
    as (_ & _ & _ & _ & Hcall).
  exact Hcall.
Defined.

(** X13. Fed by the hook, the Kill All button is on screen only when the
    panel is open and the count is positive, it is disabled exactly while
    [isKillingAll] holds, and it is never shown beside "No running
    processes", which appears when the view is the empty array. *)
Theorem killAll_button_gating a view :
  render a = Some view ->
  (forall button,
     view_killAll view = Some button ->
     app_isOpen a = true
     /\ button_disabled button = isKillingAll (app_hook a)
     /\ exists n,
          processCount (app_hook a) = Normal n
          /\ js_gt0 n = true /\ view_badge view = Some n)
  /\ (view_content view = Some NoRunningProcesses ->
      processes (app_hook a) = JsArray []
      /\ view_killAll view = None /\ view_badge view = None).
Proof.
  unfold render, panelProps.
  destruct (processes (app_hook a)) as [| |v| |] eqn:Hv; try done.
  destruct (processCount (app_hook a)) as [n|] eqn:Hn; [|done].
  intros [= <-]. cbn [ProcessPanel view_killAll view_badge view_content
                      props_isOpen props_processCount props_processes props_isKillingAll].
  split.
  - intros button. destruct (app_isOpen a); [|done].
    destruct (js_gt0 n) eqn:Hpos; [|done]. simpl. intros [= <-].
    split; [done|]. split; [done|]. eauto.
  - destruct (app_isOpen a); [|done]. destruct v as [|p v]; [|done]. intros _.
    rewrite (processCount_reduce _ _ Hv) in Hn. injection Hn as <-. by simpl.
Qed.

Lemma killAll_button_gating_witness :
  render app_confirming ≫= view_killAll
  = Some {| button_disabled := false; button_label := "Kill All" |}
  /\ app_isOpen app_confirming = true
  /\ processCount (app_hook app_confirming) = Normal 2.
Proof.
  split; [reflexivity|].
  destruct (render app_confirming) as [view|] eqn:Hview; [|discriminate Hview].
  destruct (killAll_button_gating app_confirming view Hview) as [Hbutton _].
  assert (Hb : view_killAll view
               = Some {| button_disabled := false; button_label := "Kill All" |}).
  { vm_compute in Hview. injection Hview as <-. reflexivity. }
  destruct (Hbutton _ Hb) as (Hopen & _ & n & Hn & _ & _).
  split; [exact Hopen|reflexivity].
Defined.
